(** * qseek: the Squirrel waveform provider (src/qseek/waveforms/squirrel.py)

    A shallow embedding of [SquirrelPrefetcher], [SquirrelStats] and
    [PyrockoSquirrel], and the properties of the windowed streaming
    pipeline.

    Conventions.
    - [datetime] and [timedelta] are integers counting microseconds, the
      resolution of Python's datetime module.
    - Python floats are modelled by exact rationals; a float division by
      zero raises [ZeroDivisionError], as [int / float] does in Python.
    - Code between two suspension points ([await], [yield]) runs as one
      atomic step at one instant of the clock; clock time passes in
      explicit [Tick] steps.
    - What lives outside squirrel.py (the trace cleaning of
      [WaveformBatch], the float/datetime conversions) enters through the
      class [Env]; the retrieval engine is an oracle passed as an
      argument. *)

From Stdlib Require Import ZArith List Ascii String Bool Lia QArith.
Import ListNotations.
Open Scope Z_scope.

(** ** Python values *)

Definition datetime := Z.
Definition timedelta := Z.

(** [timedelta.total_seconds()] *)
Definition total_seconds (d : timedelta) : Q := d # 1000000.

(** [bool(timedelta)]: a zero timedelta is falsy. *)
Definition timedelta_truthy (d : timedelta) : bool := negb (d =? 0).

Inductive exn : Type :=
| ValueError (msg : string)
| ZeroDivisionError
| SourceError.  (* whatever the source iterator raised *)

(** [a / b] for an int [a] and a float [b]. *)
Definition truediv (a : Z) (b : Q) : exn + Q :=
  if Qeq_bool b 0 then inl ZeroDivisionError else inr (inject_Z a / b)%Q.

(** ** Batches *)

Record Trace : Type := mkTrace {
  tr_codes : string;
  tr_nbytes : Z
}.

(** qseek.waveforms.base.WaveformBatch *)
Module WaveformBatch.
Record t : Type := make {
  traces : list Trace;
  start_time : datetime;
  end_time : datetime;
  i_batch : Z;
  n_batches : Z
}.

(** Modelled from the spec: [is_empty], [cumulative_bytes] and [duration]
    are methods of WaveformBatch in qseek/waveforms/base.py, which is not
    part of the sources at hand; sections 3 and 4.1 of the specification
    define them. *)
Definition is_empty (b : t) : bool :=
  match traces b with [] => true | _ :: _ => false end.

Definition cumulative_bytes (b : t) : Z :=
  fold_right (fun tr acc => tr_nbytes tr + acc) 0 (traces b).

Definition duration (b : t) : timedelta :=
  end_time b - start_time b.
End WaveformBatch.

(** What squirrel.py imports and the claims do not constrain: the engine's
    float timestamps with their conversions ([qseek.utils.to_datetime],
    [datetime.timestamp]), [WaveformBatch.clean_traces] of
    qseek.waveforms.base as a function on the trace list it mutates,
    what [glob.glob(path, recursive=True)] finds on disk, and
    [Path.expanduser] (on the path as a string), which depends on the
    user's home directory and is taken to find one. *)
Class Env : Type := {
  timestamp : Type;
  to_datetime : timestamp -> datetime;
  to_timestamp : datetime -> timestamp;
  clean_traces : list Trace -> list Trace;
  glob_recursive : string -> list string;
  expanduser : string -> string
}.

Section Pipeline.

Context {E : Env}.

(** pyrocko.squirrel.base.Batch *)
Record Batch : Type := mkBatch {
  b_traces : list Trace;
  b_tmin : timestamp;
  b_tmax : timestamp;
  b_i : Z;
  b_n : Z
}.

(** Lines 228-236: the WaveformBatch built from a dequeued pyrocko batch,
    after [batch.clean_traces()]. *)
Definition make_batch (pb : Batch) : WaveformBatch.t :=
  {| WaveformBatch.traces := clean_traces (b_traces pb);
     WaveformBatch.start_time := to_datetime (b_tmin pb);
     WaveformBatch.end_time := to_datetime (b_tmax pb);
     WaveformBatch.i_batch := b_i pb;
     WaveformBatch.n_batches := b_n pb |}.

(** ** SquirrelStats

    The record holds the model's fields. The private attribute [_queue]
    (lines 77-80), which line 219 binds to the queue of the prefetcher,
    is a reference to that shared queue and no field here: [queue_size]
    and [queue_size_max] below take the queue it refers to as their
    argument. *)

Record SquirrelStats : Type := mkStats {
  empty_batches : Z;
  short_batches : Z;
  time_per_batch : timedelta;
  bytes_per_seconds : Q
}.

Definition stats0 : SquirrelStats :=
  {| empty_batches := 0; short_batches := 0;
     time_per_batch := 0; bytes_per_seconds := 0%Q |}.

Definition set_time_per_batch (st : SquirrelStats) (d : timedelta) :=
  {| empty_batches := empty_batches st; short_batches := short_batches st;
     time_per_batch := d; bytes_per_seconds := bytes_per_seconds st |}.

Definition set_bytes_per_seconds (st : SquirrelStats) (r : Q) :=
  {| empty_batches := empty_batches st; short_batches := short_batches st;
     time_per_batch := time_per_batch st; bytes_per_seconds := r |}.

Definition incr_empty_batches (st : SquirrelStats) :=
  {| empty_batches := empty_batches st + 1; short_batches := short_batches st;
     time_per_batch := time_per_batch st;
     bytes_per_seconds := bytes_per_seconds st |}.

Definition incr_short_batches (st : SquirrelStats) :=
  {| empty_batches := empty_batches st; short_batches := short_batches st + 1;
     time_per_batch := time_per_batch st;
     bytes_per_seconds := bytes_per_seconds st |}.

(** ** One iteration of the consumer loop, after a batch was dequeued
    (lines 228-257 of [iter_batches]). *)

Inductive outcome : Type :=
| Yield (b : WaveformBatch.t)   (* line 257: [yield batch] *)
| Continue                    (* lines 246, 255: [continue] *)
| Raise (e : exn).

(** [min_length and batch.duration < min_length] *)
Definition too_short (min_length : option timedelta) (b : WaveformBatch.t) : bool :=
  match min_length with
  | None => false
  | Some m => timedelta_truthy m && (WaveformBatch.duration b <? m)
  end.

Definition process_batch (load_time : timedelta) (min_length : option timedelta)
    (start now : datetime) (stats : SquirrelStats) (pb : Batch)
  : SquirrelStats * outcome :=
  let batch := make_batch pb in
  let stats := set_time_per_batch stats (now - start) in
  match truediv (WaveformBatch.cumulative_bytes batch) (total_seconds load_time) with
  | inl e => (stats, Raise e)
  | inr rate =>
    let stats := set_bytes_per_seconds stats rate in
    if WaveformBatch.is_empty batch then (incr_empty_batches stats, Continue)
    else if too_short min_length batch then (incr_short_batches stats, Continue)
    else (stats, Yield batch)
  end.

(** ** The retrieval engine *)

Definition NSL : Type := string * string * string.
Definition NSLC : Type := string * string * string * string.

(** qseek.models.station.Stations, as far as squirrel.py reads it. *)
Record Stations : Type := mkStations {
  get_all_nsl : list NSL;
  station_xmls : list string
}.

(** The keyword arguments of [chopper_waveforms_async], lines 206-215. *)
Record chopper_request : Type := mkRequest {
  tmin : timestamp;
  tmax : timestamp;
  tinc : Q;
  tpad : Q;
  want_incomplete : bool;
  codes : list NSLC
}.

(** The asynchronous iterator the engine hands out: the batches it will
    yield, in order, and whether it then stops ([StopAsyncIteration]) or
    raises. *)
Inductive source_end : Type := Exhausted | Raises.

Record Source : Type := mkSource {
  src_batches : list Batch;
  src_end : source_end
}.

(** pyrocko.squirrel.Squirrel, by the two methods [iter_batches] calls. *)
Record Squirrel : Type := mkSquirrel {
  get_time_span : list string -> timestamp * timestamp;
  chopper_waveforms_async : chopper_request -> Source
}.

(** ** PyrockoSquirrel *)

Record PyrockoSquirrel : Type := mkProvider {
  environment : string;
  waveform_dirs : list string;
  start_time : option datetime;
  end_time : option datetime;
  channel_selector : string;
  async_prefetch_batches : Z;
  _squirrel : option Squirrel;
  _stations : option Stations;
  _stats : SquirrelStats
}.

Definition set_squirrel (p : PyrockoSquirrel) (sq : Squirrel) : PyrockoSquirrel :=
  {| environment := environment p; waveform_dirs := waveform_dirs p;
     start_time := start_time p; end_time := end_time p;
     channel_selector := channel_selector p;
     async_prefetch_batches := async_prefetch_batches p;
     _squirrel := Some sq; _stations := _stations p; _stats := _stats p |}.

Definition set_stations (p : PyrockoSquirrel) (st : Stations) : PyrockoSquirrel :=
  {| environment := environment p; waveform_dirs := waveform_dirs p;
     start_time := start_time p; end_time := end_time p;
     channel_selector := channel_selector p;
     async_prefetch_batches := async_prefetch_batches p;
     _squirrel := _squirrel p; _stations := Some st; _stats := _stats p |}.

(** Lines 144-148. A datetime is always truthy, so [self.start_time and
    self.end_time] tests that both are set. *)
Definition _validate_model (p : PyrockoSquirrel) : exn + PyrockoSquirrel :=
  match start_time p, end_time p with
  | Some t0, Some t1 =>
    if t0 >? t1 then inl (ValueError "start_time must be before end_time")
    else inr p
  | _, _ => inr p
  end.

(** Lines 150-154. *)
Definition check_dirs (dirs : list string) : exn + list string :=
  match dirs with
  | [] => inl (ValueError "no waveform directories provided!")
  | _ :: _ => inr dirs
  end.

(** *** Calls that leave the process: engine and file system *)

Inductive io_event : Type :=
| EvSquirrelOpen (env : string)
| EvGlob (pattern : string)
| EvSquirrelAdd (paths : list string)
| EvWeed
| EvGetTimeSpan (kinds : list string)
| EvChopper (req : chopper_request).

(** The methods run in a monad threading the provider object and the log
    of outside calls; an exception ends the computation. *)
Record world : Type := mkWorld {
  self : PyrockoSquirrel;
  io : list io_event
}.

Definition M (A : Type) : Type := world -> (exn + A) * world.

Definition ret {A : Type} (a : A) : M A := fun w => (inr a, w).

Definition bind {A B : Type} (m : M A) (k : A -> M B) : M B :=
  fun w => match m w with
           | (inl e, w') => (inl e, w')
           | (inr a, w') => k a w'
           end.

Definition raise {A : Type} (e : exn) : M A := fun w => (inl e, w).

Definition emit (ev : io_event) : M unit :=
  fun w => (inr tt, {| self := self w; io := io w ++ [ev] |}).

Definition get_self : M PyrockoSquirrel := fun w => (inr (self w), w).

Definition put_self (p : PyrockoSquirrel) : M unit :=
  fun w => (inr tt, {| self := p; io := io w |}).

Notation "x <- c1 ;; c2" := (bind c1 (fun x => c2))
  (at level 61, c1 at next level, right associativity).
Notation "c1 ;;; c2" := (bind c1 (fun _ => c2))
  (at level 61, right associativity).

(** ["**" in str(path)] *)
Fixpoint has_double_star (s : string) : bool :=
  match s with
  | String "*"%char (String "*"%char _) => true
  | String _ rest => has_double_star rest
  | EmptyString => false
  end.

(** Lines 160-165. *)
Fixpoint collect_paths (dirs paths : list string) : M (list string) :=
  match dirs with
  | [] => ret paths
  | path :: dirs' =>
    if has_double_star path
    then emit (EvGlob (expanduser path)) ;;;
         collect_paths dirs' (paths ++ glob_recursive (expanduser path))
    else collect_paths dirs' (paths ++ [expanduser path])
  end.

(** Lines 168-171. *)
Fixpoint add_station_xmls (xmls : list string) : M unit :=
  match xmls with
  | [] => ret tt
  | path :: xmls' => emit (EvSquirrelAdd [path]) ;;; add_station_xmls xmls'
  end.

(** Lines 156-173; [engine] is what [Squirrel(str(environment))] builds. *)
Definition get_squirrel (engine : Squirrel) : M Squirrel :=
  p <- get_self ;;
  match _squirrel p with
  | Some sq => ret sq
  | None =>
    emit (EvSquirrelOpen (expanduser (environment p))) ;;;
    paths <- collect_paths (waveform_dirs p) [] ;;
    emit (EvSquirrelAdd paths) ;;;
    match _stations p with
    | Some st => add_station_xmls (station_xmls st)
    | None => ret tt
    end ;;;
    p <- get_self ;;
    put_self (set_squirrel p engine) ;;;
    ret engine
  end.

(** Lines 175-179. *)
Definition prepare (engine : Squirrel) (stations : Stations) : M unit :=
  p <- get_self ;;
  put_self (set_stations p stations) ;;;
  _ <- get_squirrel engine ;;
  emit EvWeed.

(** [a or b] where [b] is a datetime. *)
Definition or_else (a : option datetime) (b : datetime) : datetime :=
  match a with Some t => t | None => b end.

(** What the prologue of [iter_batches] (lines 189-219) leaves for the
    loop: the iterator handed to the prefetcher, the queue size, and the
    resolved span. *)
Record stream : Type := mkStream {
  s_iterator : Source;
  s_queue_size : Z;
  s_start_time : datetime;
  s_end_time : datetime;
  s_min_length : option timedelta
}.

Definition iter_batches_open (engine : Squirrel)
    (window_increment window_padding : timedelta)
    (start_time' end_time' : option datetime) (min_length : option timedelta)
  : M stream :=
  p <- get_self ;;
  match _stations p with
  | None => raise (ValueError "no stations provided. has prepare() been called?")
  | Some stations =>
    squirrel <- get_squirrel engine ;;
    emit (EvGetTimeSpan ["waveform"%string]) ;;;
    let '(sq_tmin, sq_tmax) := get_time_span squirrel ["waveform"%string] in
    let start_time' := or_else start_time' (or_else (start_time p) (to_datetime sq_tmin)) in
    let end_time' := or_else end_time' (or_else (end_time p) (to_datetime sq_tmax)) in
    let req :=
      {| tmin := to_timestamp (start_time' + window_padding);
         tmax := to_timestamp (end_time' - window_padding);
         tinc := total_seconds window_increment;
         tpad := total_seconds window_padding;
         want_incomplete := false;
         codes := map (fun nsl : NSL => let '(n, s, l) := nsl in
                                        (n, s, l, channel_selector p))
                      (get_all_nsl stations) |} in
    emit (EvChopper req) ;;;
    ret {| s_iterator := chopper_waveforms_async squirrel req;
           s_queue_size := async_prefetch_batches p;
           s_start_time := start_time';
           s_end_time := end_time';
           s_min_length := min_length |}
  end.

(** ** The streaming loop: prefetcher task and consumer

    [SquirrelPrefetcher.prefetch_worker] (lines 54-68) and the loop of
    [iter_batches] (lines 221-259) are two coroutines on one event loop.
    Each is at one of its suspension points; a step runs one of them to
    its next suspension point. *)

(** Where the prefetcher's task stands. *)
Inductive producer : Type :=
| PCreated                                     (* line 52: created, not yet run *)
| PFetch (start : datetime)                    (* line 61: awaiting the iterator *)
| PPut (item : option Batch) (start : datetime)  (* lines 66, 68: in [queue.put] *)
| PDone                                        (* the worker returned *)
| PFailed (e : exn).                           (* the worker ended on an exception *)

(** Where the generator [iter_batches] stands. *)
Inductive consumer : Type :=
| CGet (start : datetime)   (* line 223: in [queue.get] *)
| CYielded                  (* line 257: suspended at [yield batch] *)
| CDone                     (* line 226: left the loop, the stream is over *)
| CFailed (e : exn)         (* an exception left the generator *)
| CCancelled.               (* the caller cancelled or closed the generator *)

(** The SquirrelPrefetcher object with its task. *)
Record SquirrelPrefetcher : Type := mkPrefetcher {
  iterator : Source;
  maxsize : Z;
  queue : list (option Batch);
  load_time : timedelta;
  _fetched_batches : Z;
  _task : producer
}.

(** Histories kept beside the program state; no step reads them. *)
Record history : Type := mkHistory {
  enqueued : list (option Batch);   (* every item ever put, in order *)
  dequeued : list (option Batch);   (* every item ever got, in order *)
  yielded : list WaveformBatch.t;   (* every batch handed to the caller *)
  waited_src : timedelta;   (* clock time in [PFetch] since [start] was stamped *)
  waited_put : timedelta;   (* clock time in [PPut] since [start] was stamped *)
  load_src : timedelta;     (* [waited_src] when [load_time] was last recorded *)
  load_put : timedelta;     (* [waited_put] when [load_time] was last recorded *)
  stamps : list datetime    (* the instants [start] was stamped at, latest first *)
}.

Record state : Type := mkState {
  now : datetime;
  prefetcher : SquirrelPrefetcher;
  gen : consumer;
  stats : SquirrelStats;
  min_length : option timedelta;
  hist : history
}.

(** [asyncio.Queue.full()]: a queue with [maxsize <= 0] is never full. *)
Definition full (p : SquirrelPrefetcher) : bool :=
  if maxsize p <=? 0 then false
  else maxsize p <=? Z.of_nat (List.length (queue p)).

(** Lines 216-222: the prefetcher is built, its task created, and the
    generator enters the loop and waits in [queue.get]. *)
Definition init_state (t0 : datetime) (st0 : SquirrelStats) (sm : stream) : state :=
  {| now := t0;
     prefetcher := {| iterator := s_iterator sm;
                      maxsize := s_queue_size sm;
                      queue := [];
                      load_time := 0;
                      _fetched_batches := 0;
                      _task := PCreated |};
     gen := CGet t0;
     stats := st0;
     min_length := s_min_length sm;
     hist := {| enqueued := []; dequeued := []; yielded := [];
                waited_src := 0; waited_put := 0;
                load_src := 0; load_put := 0; stamps := [] |} |}.

(** The clock advances by [d]. *)
Definition tick (d : timedelta) (s : state) : state :=
  let h := hist s in
  {| now := now s + d;
     prefetcher := prefetcher s;
     gen := gen s;
     stats := stats s;
     min_length := min_length s;
     hist := {| enqueued := enqueued h; dequeued := dequeued h;
                yielded := yielded h;
                waited_src := match _task (prefetcher s) with
                              | PFetch _ => waited_src h + d
                              | _ => waited_src h
                              end;
                waited_put := match _task (prefetcher s) with
                              | PPut _ _ => waited_put h + d
                              | _ => waited_put h
                              end;
                load_src := load_src h; load_put := load_put h;
                stamps := stamps h |} |}.

(** The prefetcher's task runs to its next suspension point, when it can. *)
Definition prefetch_worker (s : state) : option state :=
  let p := prefetcher s in
  let h := hist s in
  let with_task (t : producer) (h' : history) : state :=
    {| now := now s;
       prefetcher := {| iterator := iterator p; maxsize := maxsize p;
                        queue := queue p; load_time := load_time p;
                        _fetched_batches := _fetched_batches p; _task := t |};
       gen := gen s; stats := stats s; min_length := min_length s;
       hist := h' |} in
  match _task p with
  | PCreated =>
    (* line 60: start = datetime_now() *)
    Some (with_task (PFetch (now s))
            {| enqueued := enqueued h; dequeued := dequeued h;
               yielded := yielded h;
               waited_src := 0; waited_put := 0;
               load_src := load_src h; load_put := load_put h;
               stamps := [now s] |})
  | PFetch start =>
    match src_batches (iterator p) with
    | batch :: rest =>
      (* lines 62-65, up to [await self.queue.put(batch)] *)
      Some {| now := now s;
              prefetcher := {| iterator := {| src_batches := rest;
                                              src_end := src_end (iterator p) |};
                               maxsize := maxsize p;
                               queue := queue p;
                               load_time := now s - start;
                               _fetched_batches := _fetched_batches p + 1;
                               _task := PPut (Some batch) (now s) |};
              gen := gen s; stats := stats s; min_length := min_length s;
              hist := {| enqueued := enqueued h; dequeued := dequeued h;
                         yielded := yielded h;
                         waited_src := 0; waited_put := 0;
                         load_src := waited_src h;
                         load_put := waited_put h;
                         stamps := now s :: stamps h |} |}
    | [] =>
      match src_end (iterator p) with
      | Exhausted => Some (with_task (PPut None start) h)   (* line 68 *)
      | Raises => Some (with_task (PFailed SourceError) h)
      end
    end
  | PPut item start =>
    if full p then None
    else
      Some {| now := now s;
              prefetcher := {| iterator := iterator p; maxsize := maxsize p;
                               queue := queue p ++ [item];
                               load_time := load_time p;
                               _fetched_batches := _fetched_batches p;
                               _task := match item with
                                        | Some _ => PFetch start
                                        | None => PDone
                                        end |};
              gen := gen s; stats := stats s; min_length := min_length s;
              hist := {| enqueued := enqueued h ++ [item];
                         dequeued := dequeued h; yielded := yielded h;
                         waited_src := waited_src h; waited_put := waited_put h;
                         load_src := load_src h; load_put := load_put h;
                         stamps := stamps h |} |}
  | PDone => None
  | PFailed _ => None
  end.

(** The generator runs to its next suspension point, when it can: a
    pending [queue.get] completes, or the caller pulls past a [yield]. *)
Definition iter_batches (s : state) : option state :=
  let p := prefetcher s in
  let h := hist s in
  match gen s with
  | CGet start =>
    match queue p with
    | [] => None
    | item :: rest =>
      let p' := {| iterator := iterator p; maxsize := maxsize p;
                   queue := rest; load_time := load_time p;
                   _fetched_batches := _fetched_batches p;
                   _task := _task p |} in
      let deq (ys : list WaveformBatch.t) :=
        {| enqueued := enqueued h; dequeued := dequeued h ++ [item];
           yielded := yielded h ++ ys;
           waited_src := waited_src h; waited_put := waited_put h;
           load_src := load_src h; load_put := load_put h;
           stamps := stamps h |} in
      match item with
      | None =>
        (* lines 224-226 *)
        Some {| now := now s; prefetcher := p'; gen := CDone;
                stats := stats s; min_length := min_length s;
                hist := deq [] |}
      | Some pyrocko_batch =>
        let '(stats', out) :=
          process_batch (load_time p) (min_length s) start (now s)
                        (stats s) pyrocko_batch in
        match out with
        | Raise e =>
          Some {| now := now s; prefetcher := p'; gen := CFailed e;
                  stats := stats'; min_length := min_length s;
                  hist := deq [] |}
        | Continue =>
          (* back to line 222 *)
          Some {| now := now s; prefetcher := p'; gen := CGet (now s);
                  stats := stats'; min_length := min_length s;
                  hist := deq [] |}
        | Yield batch =>
          Some {| now := now s; prefetcher := p'; gen := CYielded;
                  stats := stats'; min_length := min_length s;
                  hist := deq [batch] |}
        end
      end
    end
  | CYielded =>
    (* line 259, then back to line 222 *)
    Some {| now := now s; prefetcher := p; gen := CGet (now s);
            stats := stats s; min_length := min_length s; hist := h |}
  | CDone => None
  | CFailed _ => None
  | CCancelled => None
  end.

(** The caller cancels the iteration while the generator is suspended.
    [iter_batches] has no [try]/[finally] and nothing holds the task: the
    generator ends and the prefetcher is not touched. *)
Definition cancel (s : state) : option state :=
  match gen s with
  | CGet _ | CYielded =>
    Some {| now := now s; prefetcher := prefetcher s; gen := CCancelled;
            stats := stats s; min_length := min_length s; hist := hist s |}
  | _ => None
  end.

Inductive action : Type :=
| Tick (d : timedelta)
| Produce
| Consume
| Cancel.

Definition step (a : action) (s : state) : option state :=
  match a with
  | Tick d => if 0 <? d then Some (tick d s) else None
  | Produce => prefetch_worker s
  | Consume => iter_batches s
  | Cancel => cancel s
  end.

(** A schedule is run action by action; it is refused as a whole when one
    of its actions cannot take place. *)
Fixpoint run (sched : list action) (s : state) : option state :=
  match sched with
  | [] => Some s
  | a :: sched' =>
    match step a s with
    | Some s' => run sched' s'
    | None => None
    end
  end.

Definition reachable (s0 s : state) : Prop :=
  exists sched, run sched s0 = Some s.

(** No coroutine can move: all that can still happen is that time passes
    or that the caller cancels. *)
Definition quiescent (s : state) : bool :=
  match prefetch_worker s, iter_batches s with
  | None, None => true
  | _, _ => false
  end.

(** ** Vocabulary of the properties *)

(** The engine [get_squirrel] returns. *)
Definition the_squirrel (engine : Squirrel) (p : PyrockoSquirrel) : Squirrel :=
  match _squirrel p with Some sq => sq | None => engine end.

(** The precedence of section 3: explicit, then configured, then reported. *)
Definition resolve (explicit configured : option datetime) (reported : timestamp)
  : datetime :=
  match explicit, configured with
  | Some t, _ => t
  | None, Some t => t
  | None, None => to_datetime reported
  end.

(** A cleaned batch that is neither empty nor too short. *)
Definition passes (ml : option timedelta) (b : WaveformBatch.t) : bool :=
  negb (WaveformBatch.is_empty b) && negb (too_short ml b).

(** What the caller is handed when the loop classifies [pbs] in order. *)
Definition handed_out (ml : option timedelta) (pbs : list Batch)
  : list WaveformBatch.t :=
  filter (passes ml) (map make_batch pbs).

(** All that a prefetcher over [src] may ever enqueue: the batches in
    source order, closed by one terminator when the source ends normally. *)
Definition full_stream (src : Source) : list (option Batch) :=
  map Some (src_batches src) ++
  match src_end src with Exhausted => [None] | Raises => [] end.

(** What the prefetcher's task has yet to enqueue. *)
Definition to_come (p : SquirrelPrefetcher) : list (option Batch) :=
  match _task p with
  | PCreated | PFetch _ => full_stream (iterator p)
  | PPut (Some b) _ => Some b :: full_stream (iterator p)
  | PPut None _ => [None]
  | PDone | PFailed _ => []
  end.

(** How the task's position relates to the end of the source [src] the
    prefetcher was built over. *)
Definition task_ok (src : Source) (p : SquirrelPrefetcher) : Prop :=
  src_end (iterator p) = src_end src /\
  match _task p with
  | PPut None _ | PDone => src_end src = Exhausted
  | PFailed e => src_end src = Raises /\ e = SourceError
  | _ => True
  end.

(** The prefetcher over [src]: what is enqueued and what is to come make
    up the full stream, and the queue holds what was put and not yet got. *)
Definition prefetcher_inv (src : Source) (s : state) : Prop :=
  enqueued (hist s) ++ to_come (prefetcher s) = full_stream src
  /\ task_ok src (prefetcher s)
  /\ enqueued (hist s) = dequeued (hist s) ++ queue (prefetcher s).

(** The generator with minimum length [ml]: what it got, and what it
    handed to its caller. *)
Definition generator_inv (ml : option timedelta) (s : state) : Prop :=
  min_length s = ml /\
  match gen s with
  | CDone =>
    exists bs, dequeued (hist s) = map Some bs ++ [None]
               /\ yielded (hist s) = handed_out ml bs
  | CFailed e =>
    e = ZeroDivisionError /\
    exists bs b, dequeued (hist s) = map Some (bs ++ [b])
                 /\ yielded (hist s) = handed_out ml bs
  | CGet _ | CYielded | CCancelled =>
    exists bs, dequeued (hist s) = map Some bs
               /\ yielded (hist s) = handed_out ml bs
  end.

(** The clock readings of the worker: [start] is the latest stamp, the
    time since then was spent awaiting the source or inside [queue.put],
    and the recorded [load_time] is the distance of the last two stamps. *)
Definition timing_inv (s : state) : Prop :=
  let p := prefetcher s in
  let h := hist s in
  0 <= _fetched_batches p
  /\ match _task p with
     | PCreated => _fetched_batches p = 0
     | PFetch start | PPut _ start =>
       exists older, stamps h = start :: older
     | _ => True
     end
  /\ match _task p with
     | PFetch start | PPut (Some _) start =>
       now s - start = waited_src h + waited_put h
       /\ 0 <= waited_src h /\ 0 <= waited_put h
     | _ => True
     end
  /\ (0 < _fetched_batches p ->
      exists t1 t0 older,
        stamps h = t1 :: t0 :: older
        /\ load_time p = t1 - t0
        /\ load_time p = load_src h + load_put h
        /\ 0 <= load_src h /\ 0 <= load_put h).

(** The task cannot run: it is over, or suspended in [queue.put] on a
    full queue. *)
Definition blocked (p : SquirrelPrefetcher) : bool :=
  match _task p with
  | PDone | PFailed _ => true
  | PPut _ _ => full p
  | PCreated | PFetch _ => false
  end.

(** The generator cannot run: it is over, or suspended in [queue.get] on
    an empty queue. *)
Definition starved (g : consumer) (p : SquirrelPrefetcher) : bool :=
  match g with
  | CGet _ => match queue p with [] => true | _ :: _ => false end
  | CYielded => false
  | CDone | CFailed _ | CCancelled => true
  end.

(** An upper bound on the steps the two coroutines can still take. *)
Definition work_left (s : state) : nat :=
  let p := prefetcher s in
  let n := List.length (src_batches (iterator p)) in
  (match _task p with
   | PCreated => 2 * n + 3
   | PFetch _ => 2 * n + 2
   | PPut (Some _) _ => 2 * n + 3
   | PPut None _ => 1
   | PDone | PFailed _ => 0
   end
   + 2 * (List.length (queue p)
          + match _task p with
            | PCreated | PFetch _ => n + 1
            | PPut (Some _) _ => n + 2
            | PPut None _ => 1
            | PDone | PFailed _ => 0
            end)
   + match gen s with CYielded => 1 | _ => 0 end)%nat.

Definition is_coroutine_step (a : action) : bool :=
  match a with Produce | Consume => true | _ => false end.

Definition coroutine_steps (sched : list action) : nat :=
  List.length (filter is_coroutine_step sched).

(** ** Further vocabulary: the rest of the module *)

(** [SquirrelStats.queue_size] and [queue_size_max], lines 82-94. The
    private attribute [_queue] refers to the queue of the prefetcher
    (shared, not copied); it is unset until [set_queue] (line 219). *)
Definition queue_size (_queue : option SquirrelPrefetcher) : Z :=
  match _queue with
  | None => 0
  | Some p => Z.of_nat (List.length (queue p))
  end.

Definition queue_size_max (_queue : option SquirrelPrefetcher) : Z :=
  match _queue with
  | None => 0
  | Some p => maxsize p
  end.

(** Lines 162-165 for one directory. *)
Definition expand_path (path : string) : list string :=
  if has_double_star path then glob_recursive (expanduser path)
  else [expanduser path].

(** The outside calls of the first [get_squirrel] of provider [p]. *)
Definition init_log (p : PyrockoSquirrel) : list io_event :=
  [EvSquirrelOpen (expanduser (environment p))]
  ++ map (fun path => EvGlob (expanduser path))
         (filter has_double_star (waveform_dirs p))
  ++ [EvSquirrelAdd (flat_map expand_path (waveform_dirs p))]
  ++ match _stations p with
     | Some st => map (fun path => EvSquirrelAdd [path]) (station_xmls st)
     | None => []
     end.

(** How many of the batches [pbs] the loop drops as empty, and as too
    short (the emptiness check comes first). *)
Definition dropped_short (ml : option timedelta) (b : WaveformBatch.t) : bool :=
  negb (WaveformBatch.is_empty b) && too_short ml b.

Definition count_empty (pbs : list Batch) : Z :=
  Z.of_nat (List.length (filter WaveformBatch.is_empty (map make_batch pbs))).

Definition count_short (ml : option timedelta) (pbs : list Batch) : Z :=
  Z.of_nat (List.length (filter (dropped_short ml) (map make_batch pbs))).

(** The batches the generator has classified so far: all it got, but the
    one it failed on. *)
Definition classified (s : state) (bs : list Batch) : Prop :=
  match gen s with
  | CDone => dequeued (hist s) = map Some bs ++ [None]
  | CFailed _ => exists b, dequeued (hist s) = map Some (bs ++ [b])
  | CGet _ | CYielded | CCancelled => dequeued (hist s) = map Some bs
  end.

(** The generator that started with counters [st0] and minimum length
    [ml]: what it yielded and what it counted, by what it classified. *)
Definition classification_inv (ml : option timedelta) (st0 : SquirrelStats)
    (s : state) : Prop :=
  min_length s = ml /\
  exists bs,
    classified s bs
    /\ yielded (hist s) = handed_out ml bs
    /\ empty_batches (stats s) = empty_batches st0 + count_empty bs
    /\ short_batches (stats s) = short_batches st0 + count_short ml bs.

End Pipeline.

(** ** Concrete inputs *)

Module Examples.

Local Open Scope string_scope.

(** Timestamps in microseconds, conversions and cleaning that change
    nothing, an empty disk, and a user whose home is /home/user. *)
Definition env : Env :=
  {| timestamp := Z;
     to_datetime := fun t => t;
     to_timestamp := fun t => t;
     clean_traces := fun trs => trs;
     glob_recursive := fun _ => [];
     expanduser := fun path =>
       match path with
       | String "~"%char rest => "/home/user" ++ rest
       | _ => path
       end |}.

Definition hhz : Trace := {| tr_codes := "XX.STA..HHZ"; tr_nbytes := 4000 |}.

(** Three one-minute windows. *)
Definition batch0 : @Batch env :=
  @mkBatch env [hhz] 0 60000000 0 3.
Definition batch1 : @Batch env :=
  @mkBatch env [hhz] 60000000 120000000 1 3.
Definition batch2 : @Batch env :=
  @mkBatch env [hhz] 120000000 180000000 2 3.

(** A window of ten seconds that holds no trace. *)
Definition empty_short_batch : @Batch env :=
  @mkBatch env [] 0 10000000 0 1.

Definition one_minute : timedelta := 60000000.
Definition one_second : timedelta := 1000000.

Definition engine (src : @Source env) : @Squirrel env :=
  @mkSquirrel env (fun _ => (0, 180000000)) (fun _ => src).

Definition stations : Stations :=
  {| get_all_nsl := [("XX", "STA", "")]; station_xmls := [] |}.

(** A provider after [prepare(stations)]: engine and stations are bound,
    no start or end time is configured. *)
Definition provider (src : @Source env) : @PyrockoSquirrel env :=
  @mkProvider env "." ["/data"] None None "*" 1
              (Some (engine src)) (Some stations) stats0.

Definition world0 (src : @Source env) : @world env :=
  @mkWorld env (provider src) [].

Definition exhausting : @Source env :=
  @mkSource env [batch0; batch1; batch2] Exhausted.

(** The source of the specification's scenario 6: one batch, then an
    exception. *)
Definition failing : @Source env :=
  @mkSource env [batch0] Raises.

(** A source whose only window holds no trace. *)
Definition empty_window : @Source env :=
  @mkSource env [empty_short_batch] Exhausted.

Definition stream_of (src : @Source env) (size : Z) (ml : option timedelta)
  : @stream env :=
  @mkStream env src size 0 180000000 ml.

(** Ten seconds of one trace. *)
Definition short_batch : @Batch env :=
  @mkBatch env [hhz] 0 10000000 0 1.

(** A provider configured with its start time after its end time. *)
Definition reversed : @PyrockoSquirrel env :=
  @mkProvider env "." ["/data"] (Some 10) (Some 5) "*" 1 None None stats0.

(** *** Schedules *)


(** With a queue of one: two batches are fetched, a microsecond each, and
    the second has to wait in [queue.put]; the consumer takes the first
    100 microseconds later, the second is put, and the source delivers
    the third at once. *)
Definition slow_consumer : list action :=
  [Produce; Tick 1; Produce; Produce; Tick 1; Produce; Tick 100;
   Consume; Produce; Produce].



(** The source delivers its first batch within the microsecond in which
    the worker started. *)
Definition instant_fetch : list action :=
  [Produce; Produce; Produce; Consume].

(** Three batches are fetched, put, got and yielded one after the other,
    then the terminator. *)
Definition complete : list action :=
  [Produce;
   Tick 1; Produce; Produce; Consume; Consume;
   Tick 1; Produce; Produce; Consume; Consume;
   Tick 1; Produce; Produce; Consume; Consume;
   Produce; Produce; Consume].

(** A provider as configured, before [prepare]: nothing is bound yet. One
    of its directories is a recursive pattern. *)
Definition fresh : @PyrockoSquirrel env :=
  @mkProvider env "~/env" ["~/data"; "/archive/**/*.mseed"] None None "HH?" 4
              None None stats0.

Definition with_xmls : Stations :=
  {| get_all_nsl := [("XX", "STA", ""); ("XX", "STB", "00")];
     station_xmls := ["/meta/XX.xml"] |}.

(** A source of an empty window, a short one and a good one. *)
Definition mixed : @Source env :=
  @mkSource env [empty_short_batch; short_batch; batch0] Exhausted.

(** The three batches of [mixed] are fetched, put and got one after the
    other, then the terminator. *)
Definition classify_mixed : list action :=
  [Produce;
   Tick 1; Produce; Produce; Consume;
   Tick 1; Produce; Produce; Consume;
   Tick 1; Produce; Produce; Consume; Consume;
   Produce; Produce; Consume].




End Examples.

(** * Properties *)

Section Properties.

Context {E : Env}.

(** ** The prologue of [iter_batches] *)

Lemma collect_paths_log (dirs paths : list string) (w : world) :
  exists ps evs,
    collect_paths dirs paths w = (inr ps, {| self := self w; io := io w ++ evs |}).
Proof.
  revert paths w.
  induction dirs as [|path dirs IH]; intros paths w; simpl.
  - exists paths, []. unfold ret. rewrite app_nil_r. now destruct w.
  - destruct (has_double_star path).
    + unfold bind, emit.
      destruct (IH (paths ++ glob_recursive (expanduser path))
                   {| self := self w;
                      io := io w ++ [EvGlob (expanduser path)] |})
        as (ps & evs & H).
      simpl in H. exists ps, (EvGlob (expanduser path) :: evs).
      rewrite H. now rewrite <- app_assoc.
    + apply IH.
Qed.

Lemma add_station_xmls_log (xmls : list string) (w : world) :
  exists evs,
    add_station_xmls xmls w = (inr tt, {| self := self w; io := io w ++ evs |}).
Proof.
  revert w.
  induction xmls as [|path xmls IH]; intros w; simpl.
  - exists []. unfold ret. rewrite app_nil_r. now destruct w.
  - unfold bind, emit.
    destruct (IH {| self := self w; io := io w ++ [EvSquirrelAdd [path]] |})
      as (evs & H).
    simpl in H. exists (EvSquirrelAdd [path] :: evs).
    rewrite H. now rewrite <- app_assoc.
Qed.

(** [get_squirrel] never raises, returns the bound engine when there is
    one, and only appends to the log. *)
Lemma get_squirrel_log (engine : Squirrel) (w : world) :
  exists p' evs,
    get_squirrel engine w
    = (inr (the_squirrel engine (self w)), {| self := p'; io := io w ++ evs |})
    /\ _stations p' = _stations (self w)
    /\ start_time p' = start_time (self w)
    /\ end_time p' = end_time (self w)
    /\ channel_selector p' = channel_selector (self w)
    /\ async_prefetch_batches p' = async_prefetch_batches (self w)
    /\ (forall sq, _squirrel (self w) = Some sq -> evs = []).
Proof.
  unfold get_squirrel, the_squirrel, bind, get_self.
  destruct (_squirrel (self w)) as [sq|] eqn:Hsq.
  - exists (self w), []. unfold ret. rewrite app_nil_r.
    destruct w; simpl; repeat split; auto.
  - unfold emit at 1. cbn [self io].
    destruct (collect_paths_log (waveform_dirs (self w)) []
                {| self := self w;
                   io := io w ++ [EvSquirrelOpen (expanduser (environment (self w)))] |})
      as (ps & evs1 & H1).
    rewrite H1. cbn [self io]. unfold emit at 1. cbn [self io].
    set (w2 := {| self := self w;
                  io := ((io w ++ [EvSquirrelOpen (expanduser (environment (self w)))])
                           ++ evs1) ++ [EvSquirrelAdd ps] |}).
    assert (Hx : exists evs2,
      match _stations (self w) with
      | Some st => add_station_xmls (station_xmls st)
      | None => ret tt
      end w2 = (inr tt, {| self := self w; io := io w2 ++ evs2 |})).
    { destruct (_stations (self w)) as [st|].
      - apply (add_station_xmls_log (station_xmls st) w2).
      - exists []. unfold ret. now rewrite app_nil_r. }
    destruct Hx as (evs2 & H2). rewrite H2.
    unfold put_self, ret. cbn [self io].
    exists (set_squirrel (self w) engine),
           (EvSquirrelOpen (expanduser (environment (self w))) :: evs1
              ++ EvSquirrelAdd ps :: evs2).
    repeat split; try reflexivity.
    + unfold w2. cbn [io]. repeat rewrite <- app_assoc. reflexivity.
    + intros sq' H; discriminate H.
Qed.

Lemma iter_batches_open_bound (engine : Squirrel) (wi wp : timedelta)
    (st en : option datetime) (ml : option timedelta) (w : world)
    (stations : Stations) :
  _stations (self w) = Some stations ->
  exists sm p' evs req,
    iter_batches_open engine wi wp st en ml w
    = (inr sm, {| self := p';
                  io := io w ++ evs ++ [EvGetTimeSpan ["waveform"%string];
                                        EvChopper req] |})
    /\ s_start_time sm
       = resolve st (start_time (self w))
           (fst (get_time_span (the_squirrel engine (self w)) ["waveform"%string]))
    /\ s_end_time sm
       = resolve en (end_time (self w))
           (snd (get_time_span (the_squirrel engine (self w)) ["waveform"%string]))
    /\ s_iterator sm = chopper_waveforms_async (the_squirrel engine (self w)) req
    /\ (forall sq, _squirrel (self w) = Some sq -> evs = []).
Proof.
  intros Hst.
  unfold iter_batches_open, bind, get_self. rewrite Hst.
  destruct (get_squirrel_log engine w)
    as (p' & evs & Hg & _ & Hs & He & Hc & Hq & Hevs).
  rewrite Hg. unfold emit at 1. cbn [self io].
  destruct (get_time_span (the_squirrel engine (self w)) ["waveform"%string])
    as [sq_tmin sq_tmax] eqn:Hspan.
  unfold emit, ret. cbn [self io].
  eexists _, p', evs, _. split; [|split; [|split; [|split]]].
  - repeat rewrite <- app_assoc. reflexivity.
  - cbn [s_start_time fst]. unfold resolve, or_else.
    destruct st; [reflexivity|]. now destruct (start_time (self w)).
  - cbn [s_end_time snd]. unfold resolve, or_else.
    destruct en; [reflexivity|]. now destruct (end_time (self w)).
  - reflexivity.
  - exact Hevs.
Qed.

(** ** One iteration of the loop *)

Lemma truediv_by_zero (a : Z) :
  truediv a (total_seconds 0) = inl ZeroDivisionError.
Proof. reflexivity. Qed.

Lemma truediv_by_nonzero (a : Z) (d : timedelta) :
  d <> 0 -> truediv a (total_seconds d) = inr (inject_Z a / total_seconds d)%Q.
Proof.
  intros Hd. unfold truediv.
  destruct (Qeq_bool (total_seconds d) 0) eqn:Hz; [|reflexivity].
  apply Qeq_bool_eq in Hz. unfold Qeq, total_seconds in Hz.
  cbn [Qnum Qden] in Hz. lia.
Qed.

(** With a load time that is not zero, the iteration classifies. *)
Lemma process_batch_classifies (load : timedelta) (ml : option timedelta)
    (start t : datetime) (st : SquirrelStats) (pb : Batch) :
  load <> 0 ->
  process_batch load ml start t st pb
  = let batch := make_batch pb in
    let st1 := set_bytes_per_seconds (set_time_per_batch st (t - start))
                 (inject_Z (WaveformBatch.cumulative_bytes batch)
                  / total_seconds load)%Q in
    if WaveformBatch.is_empty batch then (incr_empty_batches st1, Continue)
    else if too_short ml batch then (incr_short_batches st1, Continue)
    else (st1, Yield batch).
Proof.
  intros Hl. unfold process_batch. now rewrite (truediv_by_nonzero _ _ Hl).
Qed.

(** The rate recorded for a batch of [B] bytes fetched in [L] > 0. *)
Lemma rate_recorded (load : timedelta) (ml : option timedelta)
    (start t : datetime) (st : SquirrelStats) (pb : Batch) :
  load <> 0 ->
  bytes_per_seconds (fst (process_batch load ml start t st pb))
  = (inject_Z (WaveformBatch.cumulative_bytes (make_batch pb))
     / total_seconds load)%Q.
Proof.
  intros Hl. rewrite (process_batch_classifies _ _ _ _ _ _ Hl). cbv zeta.
  destruct (WaveformBatch.is_empty (make_batch pb)); [reflexivity|].
  now destruct (too_short ml (make_batch pb)).
Qed.

(** An empty batch is dropped and counted, when the load time is not zero. *)
Lemma empty_batch_counted (load : timedelta) (ml : option timedelta)
    (start t : datetime) (st : SquirrelStats) (pb : Batch) :
  load <> 0 ->
  WaveformBatch.is_empty (make_batch pb) = true ->
  snd (process_batch load ml start t st pb) = Continue
  /\ empty_batches (fst (process_batch load ml start t st pb))
     = empty_batches st + 1
  /\ short_batches (fst (process_batch load ml start t st pb))
     = short_batches st.
Proof.
  intros Hl He. rewrite (process_batch_classifies _ _ _ _ _ _ Hl). cbv zeta.
  rewrite He. repeat split.
Qed.

(** ** The two coroutines: what every step preserves *)

Lemma run_app (sched1 sched2 : list action) (s : state) :
  run (sched1 ++ sched2) s
  = match run sched1 s with Some s' => run sched2 s' | None => None end.
Proof.
  revert s. induction sched1 as [|a sched1 IH]; intros s; simpl; [reflexivity|].
  destruct (step a s); [apply IH|reflexivity].
Qed.

Lemma run_preserves (P : state -> Prop) :
  (forall a s s', P s -> step a s = Some s' -> P s') ->
  forall sched s s', P s -> run sched s = Some s' -> P s'.
Proof.
  intros Hstep sched. induction sched as [|a sched IH]; intros s s' HP Hrun.
  - simpl in Hrun. now inversion Hrun; subst.
  - simpl in Hrun. destruct (step a s) as [s1|] eqn:Hs; [|discriminate].
    apply (IH s1); [|assumption]. now apply (Hstep a s).
Qed.

Lemma full_stream_cons (b : Batch) (rest : list Batch) (e : source_end) :
  full_stream {| src_batches := b :: rest; src_end := e |}
  = Some b :: full_stream {| src_batches := rest; src_end := e |}.
Proof. reflexivity. Qed.

Ltac state_projections H :=
  cbn [now prefetcher gen stats min_length hist
       iterator maxsize queue load_time _fetched_batches _task] in H.

Ltac step_cases Hstep :=
  match type of Hstep with
  | step ?a ?s = Some _ =>
    destruct s as [t [it mx q lt fb tk] g st ml h];
    destruct a as [d| | |]; cbn [step] in Hstep;
    [ destruct (0 <? d); [|discriminate];
      injection Hstep as <-
    | unfold prefetch_worker in Hstep; state_projections Hstep
    | unfold iter_batches in Hstep; state_projections Hstep
    | unfold cancel in Hstep; state_projections Hstep ]
  end.

Lemma prefetcher_inv_step (src : Source) (a : action) (s s' : state) :
  prefetcher_inv src s -> step a s = Some s' -> prefetcher_inv src s'.
Proof.
  intros Hinv Hstep. step_cases Hstep.
  - exact Hinv.
  - destruct Hinv as (Hs & (He & Ht) & Hq).
    unfold to_come in Hs. cbn in Hs, He, Ht, Hq.
    destruct tk as [|start|item start| |e].
    + injection Hstep as <-. repeat split; assumption.
    + destruct it as [[|b rest] e]; cbn in Hstep.
      * destruct e; injection Hstep as <-;
          unfold prefetcher_inv, task_ok, to_come; cbn in *;
          repeat split; auto; congruence.
      * injection Hstep as <-.
        unfold prefetcher_inv, task_ok, to_come; cbn in *.
        repeat split; auto.
    + destruct (full _); [discriminate|]. injection Hstep as <-.
      unfold prefetcher_inv, task_ok, to_come. cbn.
      destruct item as [b|]; cbn in *.
      * repeat split; auto.
        -- rewrite <- app_assoc. exact Hs.
        -- rewrite Hq. now rewrite app_assoc.
      * repeat split; auto.
        -- rewrite app_nil_r. exact Hs.
        -- rewrite Hq. now rewrite app_assoc.
    + discriminate.
    + discriminate.
  - destruct Hinv as (Hs & (He & Ht) & Hq).
    cbn in Hs, He, Ht, Hq.
    destruct g as [start| | |e|]; try discriminate.
    + destruct q as [|item rest]; [discriminate|].
      destruct item as [pb|].
      * destruct (process_batch _ _ _ _ _ _) as [st' [b| |e]];
          injection Hstep as <-; unfold prefetcher_inv; cbn;
          (repeat split; auto; rewrite Hq; now rewrite <- app_assoc).
      * injection Hstep as <-; unfold prefetcher_inv; cbn;
          (repeat split; auto; rewrite Hq; now rewrite <- app_assoc).
    + injection Hstep as <-. repeat split; auto.
  - destruct g; try discriminate; injection Hstep as <-; exact Hinv.
Qed.

(** What becomes of a dequeued batch. *)
Lemma process_batch_outcome (load : timedelta) (ml : option timedelta)
    (start t : datetime) (st : SquirrelStats) (pb : Batch) :
  snd (process_batch load ml start t st pb)
  = if load =? 0 then Raise ZeroDivisionError
    else if passes ml (make_batch pb) then Yield (make_batch pb)
    else Continue.
Proof.
  destruct (Z.eqb_spec load 0) as [->|Hl].
  - reflexivity.
  - unfold process_batch. rewrite (truediv_by_nonzero _ _ Hl).
    unfold passes.
    destruct (WaveformBatch.is_empty (make_batch pb)); [reflexivity|].
    now destruct (too_short ml (make_batch pb)).
Qed.

Lemma handed_out_snoc (ml : option timedelta) (bs : list Batch) (b : Batch) :
  handed_out ml (bs ++ [b])
  = handed_out ml bs
    ++ (if passes ml (make_batch b) then [make_batch b] else []).
Proof.
  unfold handed_out. rewrite map_app, filter_app. reflexivity.
Qed.

Lemma generator_inv_step (ml0 : option timedelta) (a : action) (s s' : state) :
  generator_inv ml0 s -> step a s = Some s' -> generator_inv ml0 s'.
Proof.
  intros Hinv Hstep. step_cases Hstep.
  - exact Hinv.
  - destruct Hinv as (Hm & Hg). cbn in Hm, Hg.
    destruct tk as [|start|item start| |e]; try discriminate.
    + injection Hstep as <-. split; assumption.
    + destruct it as [[|b rest] [|]]; injection Hstep as <-; split; assumption.
    + destruct (full _); [discriminate|]. injection Hstep as <-.
      split; assumption.
  - destruct Hinv as (Hm & Hg). cbn in Hm, Hg.
    destruct g as [start| | |e|]; try discriminate.
    + destruct Hg as (bs & Hd & Hy).
      destruct q as [|item rest]; [discriminate|].
      destruct item as [pb|].
      * pose proof (process_batch_outcome lt ml start t st pb) as Ho.
        destruct (process_batch lt ml start t st pb) as [st' out].
        cbn [snd] in Ho. subst out.
        destruct (lt =? 0).
        -- cbv iota in Hstep. injection Hstep as <-. split; [exact Hm|]. cbn.
           split; [reflexivity|]. exists bs, pb.
           rewrite Hd, Hy, map_app, app_nil_r. split; reflexivity.
        -- subst ml0.
           destruct (passes ml (make_batch pb)) eqn:Hp;
             cbv iota in Hstep; injection Hstep as <-; (split; [reflexivity|]); cbn;
             exists (bs ++ [pb]);
             rewrite Hd, Hy, map_app, handed_out_snoc, Hp;
             split; reflexivity.
      * injection Hstep as <-. split; [exact Hm|]. cbn.
        exists bs. rewrite Hd, Hy, app_nil_r. split; reflexivity.
    + injection Hstep as <-. split; assumption.
  - destruct g; try discriminate; injection Hstep as <-; exact Hinv.
Qed.

Lemma timing_inv_step (a : action) (s s' : state) :
  timing_inv s -> step a s = Some s' -> timing_inv s'.
Proof.
  intros Hinv Hstep.
  destruct s as [t [it mx q lt fb tk] g st ml h].
  destruct a as [d| | |]; cbn [step] in Hstep.
  - destruct (Z.ltb_spec 0 d) as [Hd|]; [|discriminate].
    injection Hstep as <-.
    destruct Hinv as (Hf & Hst & Hw & Hl).
    unfold timing_inv, tick. cbn in *.
    split; [exact Hf|]. split; [|split; [|exact Hl]].
    + destruct tk; auto.
    + destruct tk as [|start|[b|] start| |e]; auto; lia.
  - unfold prefetch_worker in Hstep. state_projections Hstep.
    destruct Hinv as (Hf & Hst & Hw & Hl). cbn in Hf, Hst, Hw, Hl.
    destruct tk as [|start|item start| |e]; try discriminate.
    + injection Hstep as <-. unfold timing_inv. cbn.
      split; [lia|]. split; [now exists []|]. split; [lia|]. lia.
    + destruct it as [[|b rest] e]; cbn in Hstep.
      * destruct e; injection Hstep as <-; unfold timing_inv; cbn;
          (split; [exact Hf|]); (split; [auto|]); (split; [auto|]); exact Hl.
      * injection Hstep as <-. unfold timing_inv. cbn.
        destruct Hst as (older & Hst).
        split; [lia|]. split; [now exists (stamps h)|]. split; [lia|].
        intros _. exists t, start, older. rewrite Hst.
        split; [reflexivity|]. lia.
    + destruct (full _); [discriminate|]. injection Hstep as <-.
      unfold timing_inv. cbn.
      split; [exact Hf|].
      destruct item as [b|]; (split; [auto|]); (split; [auto|]); exact Hl.
  - unfold iter_batches in Hstep. state_projections Hstep.
    destruct g as [start| | |e|]; try discriminate.
    + destruct q as [|item rest]; [discriminate|].
      destruct item as [pb|].
      * destruct (process_batch _ _ _ _ _ _) as [st' [b| |e]];
          injection Hstep as <-; exact Hinv.
      * injection Hstep as <-; exact Hinv.
    + injection Hstep as <-. exact Hinv.
  - unfold cancel in Hstep. state_projections Hstep.
    destruct g; try discriminate; injection Hstep as <-; exact Hinv.
Qed.

Lemma work_left_step (a : action) (s s' : state) :
  step a s = Some s' ->
  ((if is_coroutine_step a then 1 else 0) + work_left s' <= work_left s)%nat.
Proof.
  intros Hstep. step_cases Hstep.
  - unfold work_left. cbn. lia.
  - destruct tk as [|start|item start| |e]; try discriminate.
    + injection Hstep as <-. unfold work_left. cbn. lia.
    + destruct it as [[|b rest] [|]]; injection Hstep as <-;
        unfold work_left; cbn; lia.
    + destruct (full _); [discriminate|]. injection Hstep as <-.
      unfold work_left. cbn. rewrite length_app. cbn.
      destruct item; lia.
  - destruct g as [start| | |e|]; try discriminate.
    + destruct q as [|item rest]; [discriminate|].
      destruct item as [pb|].
      * destruct (process_batch _ _ _ _ _ _) as [st' [b| |e]];
          injection Hstep as <-; unfold work_left; cbn; lia.
      * injection Hstep as <-; unfold work_left; cbn; lia.
    + injection Hstep as <-. unfold work_left; cbn; lia.
  - destruct g; try discriminate; injection Hstep as <-;
      unfold work_left; cbn; lia.
Qed.

(** ** What holds in every state a schedule leads to *)

Lemma init_prefetcher_inv (t0 : datetime) (st0 : SquirrelStats) (sm : stream) :
  prefetcher_inv (s_iterator sm) (init_state t0 st0 sm).
Proof. repeat split. Qed.

Lemma init_generator_inv (t0 : datetime) (st0 : SquirrelStats) (sm : stream) :
  generator_inv (s_min_length sm) (init_state t0 st0 sm).
Proof. split; [reflexivity|]. now exists []. Qed.

Lemma init_timing_inv (t0 : datetime) (st0 : SquirrelStats) (sm : stream) :
  timing_inv (init_state t0 st0 sm).
Proof.
  unfold timing_inv. cbn. split; [lia|]. split; [reflexivity|].
  split; [exact I|]. lia.
Qed.

Lemma reachable_prefetcher_inv (t0 : datetime) (st0 : SquirrelStats)
    (sm : stream) (sched : list action) (s : state) :
  run sched (init_state t0 st0 sm) = Some s ->
  prefetcher_inv (s_iterator sm) s.
Proof.
  apply (run_preserves (prefetcher_inv (s_iterator sm))).
  - intros a s1 s2. apply prefetcher_inv_step.
  - apply init_prefetcher_inv.
Qed.

Lemma reachable_generator_inv (t0 : datetime) (st0 : SquirrelStats)
    (sm : stream) (sched : list action) (s : state) :
  run sched (init_state t0 st0 sm) = Some s ->
  generator_inv (s_min_length sm) s.
Proof.
  apply (run_preserves (generator_inv (s_min_length sm))).
  - intros a s1 s2. apply generator_inv_step.
  - apply init_generator_inv.
Qed.

Lemma reachable_timing_inv (t0 : datetime) (st0 : SquirrelStats)
    (sm : stream) (sched : list action) (s : state) :
  run sched (init_state t0 st0 sm) = Some s -> timing_inv s.
Proof.
  apply (run_preserves timing_inv).
  - intros a s1 s2. apply timing_inv_step.
  - apply init_timing_inv.
Qed.

Lemma steps_bounded (sched : list action) (s s' : state) :
  run sched s = Some s' ->
  (coroutine_steps sched + work_left s' <= work_left s)%nat.
Proof.
  revert s. induction sched as [|a sched IH]; intros s Hrun.
  - injection Hrun as <-. unfold coroutine_steps. cbn. lia.
  - cbn [run] in Hrun. destruct (step a s) as [s1|] eqn:Hs; [|discriminate].
    specialize (IH s1 Hrun). pose proof (work_left_step a s s1 Hs) as Hw.
    unfold coroutine_steps in *. cbn [filter].
    destruct (is_coroutine_step a); cbn [List.length]; lia.
Qed.

Lemma work_left_init (t0 : datetime) (st0 : SquirrelStats) (sm : stream) :
  work_left (init_state t0 st0 sm)
  = (4 * List.length (src_batches (s_iterator sm)) + 5)%nat.
Proof. unfold work_left. cbn. lia. Qed.

(** A terminator among the first items of a full stream is its last item. *)
Lemma terminator_closes (src : Source) (l rest : list (option Batch)) :
  l ++ rest = full_stream src -> In None l ->
  src_end src = Exhausted
  /\ l = map Some (src_batches src) ++ [None]
  /\ rest = [].
Proof.
  destruct src as [bs e]. unfold full_stream. cbn [src_batches src_end].
  revert l. induction bs as [|b bs IH]; intros l Heq Hin.
  - destruct l as [|x l]; [contradiction|].
    destruct e; cbn in Heq; [|discriminate].
    injection Heq as -> Hl. apply app_eq_nil in Hl as [-> ->]. auto.
  - destruct l as [|x l]; [contradiction|].
    cbn in Heq. injection Heq as -> Hl.
    destruct Hin as [Hx|Hin]; [discriminate|].
    destruct (IH l Hl Hin) as (He & -> & Hr). auto.
Qed.

Lemma full_stream_raises (src : Source) :
  src_end src = Raises -> full_stream src = map Some (src_batches src).
Proof. intros H. unfold full_stream. rewrite H. apply app_nil_r. Qed.

Lemma full_stream_exhausted (src : Source) :
  src_end src = Exhausted ->
  full_stream src = map Some (src_batches src) ++ [None].
Proof. intros H. unfold full_stream. now rewrite H. Qed.


Lemma not_full_when_empty (p : SquirrelPrefetcher) :
  queue p = [] -> full p = false.
Proof.
  intros H. unfold full. rewrite H. cbn.
  now destruct (maxsize p <=? 0).
Qed.

(** The task cannot move only when it is over or faces a full queue. *)
Lemma worker_blocked (s : state) :
  prefetch_worker s = None ->
  full (prefetcher s) = false ->
  _task (prefetcher s) = PDone
  \/ exists e, _task (prefetcher s) = PFailed e.
Proof.
  unfold prefetch_worker. intros H Hf. rewrite Hf in H.
  destruct (_task (prefetcher s)) as [|start|item start| |e];
    try discriminate; [| left; reflexivity | right; now exists e].
  destruct (src_batches (iterator (prefetcher s))); [|discriminate].
  destruct (src_end (iterator (prefetcher s))); discriminate.
Qed.

(** When the task is over, all of the stream has been enqueued. *)
Lemma task_over_enqueued (src : Source) (s : state) :
  prefetcher_inv src s ->
  (_task (prefetcher s) = PDone ->
   src_end src = Exhausted
   /\ enqueued (hist s) = map Some (src_batches src) ++ [None])
  /\ (forall e, _task (prefetcher s) = PFailed e ->
      src_end src = Raises /\ e = SourceError
      /\ enqueued (hist s) = map Some (src_batches src)).
Proof.
  intros (Hs & (He & Ht) & _). unfold to_come in Hs. split.
  - intros Hd. rewrite Hd in Hs, Ht. rewrite app_nil_r in Hs.
    split; [exact Ht|]. rewrite Hs. now apply full_stream_exhausted.
  - intros e Hd. rewrite Hd in Hs, Ht. rewrite app_nil_r in Hs.
    destruct Ht as [Hr ->]. repeat split; auto.
    rewrite Hs. now apply full_stream_raises.
Qed.

(** Once the terminator is enqueued, the task is over. *)
Lemma terminator_enqueued_done (src : Source) (s : state) :
  prefetcher_inv src s ->
  In None (enqueued (hist s)) ->
  src_end src = Exhausted
  /\ enqueued (hist s) = map Some (src_batches src) ++ [None]
  /\ _task (prefetcher s) = PDone.
Proof.
  intros Hinv Hin. pose proof Hinv as (Hs & (He & Ht) & _).
  destruct (terminator_closes _ _ _ Hs Hin) as (Hx & Henq & Hc).
  repeat split; auto.
  unfold to_come in Hc.
  destruct (_task (prefetcher s)) as [|start|[b|] start| |e];
    try discriminate; try reflexivity.
  - unfold full_stream in Hc. rewrite He, Hx in Hc.
    now apply app_eq_nil in Hc as [_ Hc].
  - unfold full_stream in Hc. rewrite He, Hx in Hc.
    now apply app_eq_nil in Hc as [_ Hc].
  - destruct Ht as [Hr _]. congruence.
Qed.

(** ** When nothing can move *)

Lemma worker_cannot_run (s : state) :
  prefetch_worker s = None <-> blocked (prefetcher s) = true.
Proof.
  unfold prefetch_worker, blocked.
  destruct (_task (prefetcher s)) as [|start|item start| |e].
  - split; discriminate.
  - destruct (src_batches (iterator (prefetcher s)));
      [destruct (src_end (iterator (prefetcher s)))|]; split; discriminate.
  - destruct (full (prefetcher s)); split; auto; discriminate.
  - split; reflexivity.
  - split; reflexivity.
Qed.

Lemma generator_cannot_run (s : state) :
  iter_batches s = None <-> starved (gen s) (prefetcher s) = true.
Proof.
  unfold iter_batches, starved.
  destruct (gen s) as [start| | |e|]; try (split; reflexivity).
  - destruct (queue (prefetcher s)) as [|[pb|] rest].
    + split; reflexivity.
    + destruct (process_batch _ _ _ _ _ _) as [st' [b| |e]];
        split; discriminate.
    + split; discriminate.
  - split; discriminate.
Qed.

Lemma quiescent_blocked_starved (s : state) :
  quiescent s = true <->
  blocked (prefetcher s) = true /\ starved (gen s) (prefetcher s) = true.
Proof.
  rewrite <- worker_cannot_run, <- generator_cannot_run. unfold quiescent.
  destruct (prefetch_worker s), (iter_batches s); split;
    try discriminate; auto; intros [H1 H2]; discriminate.
Qed.



(** ** After a cancellation *)



(** ** The claims *)

(** What was got from the queue is a beginning of the source's batches. *)
Lemma got_in_source_order (src : Source) (bs : list Batch)
    (more : list (option Batch)) :
  map Some bs ++ more = full_stream src ->
  exists rest, src_batches src = bs ++ rest.
Proof.
  destruct src as [all e]. unfold full_stream. cbn [src_batches src_end].
  revert all. induction bs as [|b bs IH]; intros all Heq.
  - now exists all.
  - destruct all as [|a all]; cbn in Heq.
    + destruct e; discriminate.
    + injection Heq as -> Heq. destruct (IH all Heq) as (rest & ->).
      now exists rest.
Qed.



(** C3 (as amended). After every successful fetch the recorded
    [load_time] is the clock time between the instant this fetch
    completed and the instant the previous fetch completed (the instant
    the worker started, for the first fetch). That interval is made of
    the time the task spent awaiting the source and the time it spent
    suspended in [queue.put] for the previous batch. *)
Theorem C3_load_time_spans_fetch_to_fetch
    (t0 : datetime) (st0 : SquirrelStats) (sm : stream)
    (sched : list action) (s : state) :
  run sched (init_state t0 st0 sm) = Some s ->
  0 < _fetched_batches (prefetcher s) ->
  exists t1 t0' older,
    stamps (hist s) = t1 :: t0' :: older
    /\ load_time (prefetcher s) = t1 - t0'
    /\ load_time (prefetcher s) = load_src (hist s) + load_put (hist s)
    /\ 0 <= load_src (hist s) /\ 0 <= load_put (hist s).
Proof.
  intros Hrun Hf.
  destruct (reachable_timing_inv _ _ _ _ _ Hrun) as (_ & _ & _ & Hl).
  exact (Hl Hf).
Qed.



Lemma prepare_binds_stations (engine : Squirrel) (stations : Stations)
    (w : world) :
  exists w', prepare engine stations w = (inr tt, w')
             /\ _stations (self w') = Some stations.
Proof.
  unfold prepare, bind, get_self, put_self.
  destruct (get_squirrel_log engine
              {| self := set_stations (self w) stations; io := io w |})
    as (p' & evs & Hg & Hst & _).
  rewrite Hg. unfold emit. cbn [self io]. eexists. split; [reflexivity|].
  cbn [self]. rewrite Hst. reflexivity.
Qed.

(** C4 (as amended). With stations bound, each end of the span is the
    caller's explicit argument when given, else the provider's configured
    bound when set, else the extent the engine reports. The engine's
    extent is queried each time, whatever was given: [get_time_span] is
    called once, after [get_squirrel] and before the batch source is
    requested; its answer is used for an end that has neither an explicit
    nor a configured bound. *)
Theorem C4_span_precedence_and_unconditional_query
    (engine : Squirrel) (wi wp : timedelta) (st en : option datetime)
    (ml : option timedelta) (w : world) (stations : Stations) :
  _stations (self w) = Some stations ->
  exists sm p' evs req,
    iter_batches_open engine wi wp st en ml w
    = (inr sm, {| self := p';
                  io := io w ++ evs ++ [EvGetTimeSpan ["waveform"%string];
                                        EvChopper req] |})
    /\ (forall sq, _squirrel (self w) = Some sq -> evs = [])
    /\ s_start_time sm
       = match st, start_time (self w) with
         | Some t, _ => t
         | None, Some t => t
         | None, None =>
           to_datetime (fst (get_time_span (the_squirrel engine (self w))
                                           ["waveform"%string]))
         end
    /\ s_end_time sm
       = match en, end_time (self w) with
         | Some t, _ => t
         | None, Some t => t
         | None, None =>
           to_datetime (snd (get_time_span (the_squirrel engine (self w))
                                           ["waveform"%string]))
         end.
Proof.
  intros Hst.
  destruct (iter_batches_open_bound engine wi wp st en ml w stations Hst)
    as (sm & p' & evs & req & Heq & Hs & He & _ & Hevs).
  exists sm, p', evs, req. repeat split; assumption.
Qed.

(** C8. Without stations bound, [iter_batches] raises its ValueError
    ("no stations provided. has prepare() been called?") at once: the
    provider and the log of outside calls are as they were, so neither
    the engine nor the file system was touched. With stations bound, as
    [prepare] leaves them, the prologue raises nothing. *)
Theorem C8_not_prepared_fails_before_any_io
    (engine : Squirrel) (wi wp : timedelta) (st en : option datetime)
    (ml : option timedelta) (w : world) :
  match _stations (self w) with
  | None =>
    iter_batches_open engine wi wp st en ml w
    = (inl (ValueError "no stations provided. has prepare() been called?"), w)
  | Some _ =>
    exists sm w', iter_batches_open engine wi wp st en ml w = (inr sm, w')
  end
  /\ forall stations,
       exists w1, prepare engine stations w = (inr tt, w1)
                  /\ exists sm w2,
                       iter_batches_open engine wi wp st en ml w1 = (inr sm, w2).
Proof.
  split.
  - destruct (_stations (self w)) as [stations|] eqn:Hst.
    + destruct (iter_batches_open_bound engine wi wp st en ml w stations Hst)
        as (sm & p' & evs & req & Heq & _).
      eauto.
    + unfold iter_batches_open, bind, get_self. rewrite Hst. reflexivity.
  - intros stations.
    destruct (prepare_binds_stations engine stations w) as (w1 & Hp & Hst).
    exists w1. split; [exact Hp|].
    destruct (iter_batches_open_bound engine wi wp st en ml w1 stations Hst)
      as (sm & p' & evs & req & Heq & _).
    eauto.
Qed.

(** C9 (as amended). The bounds are checked when the provider model is
    validated, on the configured bounds only: with both set, a start time
    after the end time raises ValueError ("start_time must be before
    end_time") and a start time before the end time is accepted.
    [iter_batches] checks nothing when it resolves the span: with
    stations bound it raises nothing and goes on to stream, whatever the
    resolved bounds are. *)
Theorem C9_bounds_checked_at_validation_only
    (p : PyrockoSquirrel) (t0 t1 : datetime) :
  start_time p = Some t0 -> end_time p = Some t1 ->
  (t1 < t0 ->
   _validate_model p = inl (ValueError "start_time must be before end_time"))
  /\ (t0 < t1 -> _validate_model p = inr p)
  /\ forall engine wi wp st en ml w stations,
       _stations (self w) = Some stations ->
       exists sm w',
         iter_batches_open engine wi wp st en ml w = (inr sm, w')
         /\ s_start_time sm
            = resolve st (start_time (self w))
                (fst (get_time_span (the_squirrel engine (self w))
                                    ["waveform"%string]))
         /\ s_end_time sm
            = resolve en (end_time (self w))
                (snd (get_time_span (the_squirrel engine (self w))
                                    ["waveform"%string])).
Proof.
  intros H0 H1. unfold _validate_model. rewrite H0, H1.
  split; [|split].
  - intros Hlt. destruct (Z.gtb_spec t0 t1); [reflexivity|lia].
  - intros Hlt. destruct (Z.gtb_spec t0 t1); [lia|reflexivity].
  - intros engine wi wp st en ml w stations Hst.
    destruct (iter_batches_open_bound engine wi wp st en ml w stations Hst)
      as (sm & p' & evs & req & Heq & Hs & He & _).
    eauto.
Qed.

(** C6 (as amended). For a dequeued batch that is not empty after
    cleaning, with a minimum length supplied and a load time that is not
    zero: if the batch is well formed (it does not end before it starts)
    and its duration is less than the minimum, it is dropped and
    [short_batches] grows by one; if its duration equals the minimum it
    is yielded and no counter moves. *)
Theorem C6_short_batches_dropped_and_counted
    (load m : timedelta) (start t : datetime) (st : SquirrelStats)
    (pb : Batch) :
  load <> 0 ->
  WaveformBatch.is_empty (make_batch pb) = false ->
  (WaveformBatch.start_time (make_batch pb)
   <= WaveformBatch.end_time (make_batch pb) ->
   WaveformBatch.duration (make_batch pb) < m ->
   snd (process_batch load (Some m) start t st pb) = Continue
   /\ short_batches (fst (process_batch load (Some m) start t st pb))
      = short_batches st + 1
   /\ empty_batches (fst (process_batch load (Some m) start t st pb))
      = empty_batches st)
  /\ (WaveformBatch.duration (make_batch pb) = m ->
      snd (process_batch load (Some m) start t st pb) = Yield (make_batch pb)
      /\ short_batches (fst (process_batch load (Some m) start t st pb))
         = short_batches st
      /\ empty_batches (fst (process_batch load (Some m) start t st pb))
         = empty_batches st).
Proof.
  intros Hl He. rewrite (process_batch_classifies _ _ _ _ _ _ Hl). cbv zeta.
  rewrite He. unfold too_short, timedelta_truthy, WaveformBatch.duration.
  split.
  - intros Hwf Hd.
    destruct (Z.eqb_spec m 0) as [->|Hm]; [lia|].
    destruct (Z.ltb_spec (WaveformBatch.end_time (make_batch pb)
                          - WaveformBatch.start_time (make_batch pb)) m);
      [|lia].
    cbn. repeat split.
  - intros Hd.
    destruct (Z.ltb_spec (WaveformBatch.end_time (make_batch pb)
                          - WaveformBatch.start_time (make_batch pb)) m);
      [lia|].
    rewrite andb_false_r. cbn. repeat split.
Qed.

(** ** Further properties: engine set-up *)

Lemma collect_paths_exact (dirs paths : list string) (w : world) :
  collect_paths dirs paths w
  = (inr (paths ++ flat_map expand_path dirs),
     {| self := self w;
        io := io w ++ map (fun path => EvGlob (expanduser path))
                          (filter has_double_star dirs) |}).
Proof.
  revert paths w.
  induction dirs as [|path dirs IH]; intros paths w; cbn [collect_paths].
  - unfold ret. cbn. rewrite !app_nil_r. now destruct w.
  - cbn [flat_map filter]. unfold expand_path at 1.
    destruct (has_double_star path).
    + unfold bind, emit. rewrite IH. cbn [self io map].
      now rewrite <- !app_assoc.
    + rewrite IH. now rewrite <- app_assoc.
Qed.

Lemma add_station_xmls_exact (xmls : list string) (w : world) :
  add_station_xmls xmls w
  = (inr tt,
     {| self := self w;
        io := io w ++ map (fun path => EvSquirrelAdd [path]) xmls |}).
Proof.
  revert w. induction xmls as [|path xmls IH]; intros w; cbn [add_station_xmls].
  - unfold ret. cbn. rewrite app_nil_r. now destruct w.
  - unfold bind, emit. rewrite IH. cbn [self io map].
    now rewrite <- app_assoc.
Qed.

Lemma get_squirrel_first (engine : Squirrel) (w : world) :
  _squirrel (self w) = None ->
  get_squirrel engine w
  = (inr engine,
     {| self := set_squirrel (self w) engine;
        io := io w ++ init_log (self w) |}).
Proof.
  intros Hsq. unfold get_squirrel, bind, get_self. rewrite Hsq.
  unfold emit at 1. cbn [self io]. rewrite collect_paths_exact.
  cbn [self io]. unfold emit at 1. cbn [self io app].
  unfold init_log.
  destruct (_stations (self w)) as [st|].
  - rewrite add_station_xmls_exact. unfold put_self, ret. cbn [self io].
    now rewrite <- !app_assoc.
  - unfold ret, put_self. cbn [self io].
    rewrite app_nil_r. now rewrite <- !app_assoc.
Qed.

Lemma get_squirrel_again (engine sq : Squirrel) (w : world) :
  _squirrel (self w) = Some sq -> get_squirrel engine w = (inr sq, w).
Proof.
  intros Hsq. unfold get_squirrel, bind, get_self. now rewrite Hsq.
Qed.

(** X1. The first [get_squirrel] opens the engine on the configured
    environment with the user's home expanded. Each waveform directory
    has the user's home expanded too; one whose configured path contains
    a double star is then replaced by what a recursive glob of it finds,
    the others are passed on. All paths are added in one call, in the
    order configured, and then each station XML (as configured) when
    stations are bound; the engine is bound. Every later call returns
    that engine and touches nothing, whatever has changed. *)
Theorem X1_engine_set_up_once (engine : Squirrel) (w : world) :
  _squirrel (self w) = None ->
  exists w1,
    get_squirrel engine w = (inr engine, w1)
    /\ io w1
       = io w
         ++ [EvSquirrelOpen (expanduser (environment (self w)))]
         ++ map (fun path => EvGlob (expanduser path))
              (filter has_double_star (waveform_dirs (self w)))
         ++ [EvSquirrelAdd (flat_map expand_path (waveform_dirs (self w)))]
         ++ match _stations (self w) with
            | Some st => map (fun path => EvSquirrelAdd [path]) (station_xmls st)
            | None => []
            end
    /\ _squirrel (self w1) = Some engine
    /\ forall engine', get_squirrel engine' w1 = (inr engine, w1).
Proof.
  intros Hsq. eexists. split; [exact (get_squirrel_first engine w Hsq)|].
  split; [reflexivity|]. split; [reflexivity|].
  intros engine'. now apply get_squirrel_again.
Qed.

(** X2. Directories without a double star reach the engine in order, with
    the user's home expanded and nothing else done to them, and the file
    system is not globbed. *)
Theorem X2_plain_directories_only_expand_home (dirs : list string) (w : world) :
  forallb (fun path => negb (has_double_star path)) dirs = true ->
  collect_paths dirs [] w = (inr (map expanduser dirs), w).
Proof.
  intros Hp. rewrite collect_paths_exact. cbn [app].
  assert (H : flat_map expand_path dirs = map expanduser dirs
              /\ filter has_double_star dirs = []).
  { induction dirs as [|path dirs IH]; [now split|].
    cbn [forallb] in Hp. apply andb_prop in Hp as [Hh Ht].
    destruct (IH Ht) as [IH1 IH2]. cbn [flat_map filter].
    unfold expand_path at 1. destruct (has_double_star path); [discriminate|].
    cbn [app map]. now rewrite IH1, IH2. }
  destruct H as [-> ->]. cbn. rewrite app_nil_r. now destruct w.
Qed.

Lemma prepare_first (engine : Squirrel) (stations : Stations) (w : world) :
  _squirrel (self w) = None ->
  prepare engine stations w
  = (inr tt,
     {| self := set_squirrel (set_stations (self w) stations) engine;
        io := (io w ++ init_log (set_stations (self w) stations))
              ++ [EvWeed] |}).
Proof.
  intros Hsq. unfold prepare, bind, get_self, put_self.
  rewrite get_squirrel_first by exact Hsq. reflexivity.
Qed.

Lemma prepare_again (engine sq : Squirrel) (stations : Stations) (w : world) :
  _squirrel (self w) = Some sq ->
  prepare engine stations w
  = (inr tt, {| self := set_stations (self w) stations;
                io := io w ++ [EvWeed] |}).
Proof.
  intros Hsq. unfold prepare, bind, get_self, put_self.
  rewrite (get_squirrel_again engine sq) by exact Hsq.
  reflexivity.
Qed.

(** The prologue on a provider with stations and engine bound. *)
Lemma iter_batches_open_prepared
    (engine sq : Squirrel) (stations : Stations) (w : world)
    (wi wp : timedelta) (st en : option datetime) (ml : option timedelta) :
  _stations (self w) = Some stations ->
  _squirrel (self w) = Some sq ->
  exists sm req,
    iter_batches_open engine wi wp st en ml w
    = (inr sm, {| self := self w;
                  io := io w ++ [EvGetTimeSpan ["waveform"%string];
                                 EvChopper req] |})
    /\ tmin req = to_timestamp (s_start_time sm + wp)
    /\ tmax req = to_timestamp (s_end_time sm - wp)
    /\ tinc req = total_seconds wi
    /\ tpad req = total_seconds wp
    /\ want_incomplete req = false
    /\ codes req
       = map (fun nsl : NSL => let '(n, s, l) := nsl in
                               (n, s, l, channel_selector (self w)))
             (get_all_nsl stations)
    /\ s_iterator sm = chopper_waveforms_async sq req
    /\ s_queue_size sm = async_prefetch_batches (self w)
    /\ s_min_length sm = ml.
Proof.
  intros Hst Hsq. unfold iter_batches_open, bind, get_self. rewrite Hst.
  rewrite (get_squirrel_again engine sq) by exact Hsq.
  unfold emit at 1. cbn [self io].
  destruct (get_time_span sq ["waveform"%string]) as [sq_tmin sq_tmax].
  unfold emit, ret. cbn [self io].
  do 2 eexists. split.
  - rewrite <- app_assoc. reflexivity.
  - cbn. repeat split.
Qed.

(** X3. [prepare] binds the stations and then sets the engine up; when
    the engine is new it is opened and given the waveform paths as the
    first [get_squirrel] does (user's home expanded, double-star
    directories globbed), the station XMLs of the stations just bound are
    added to it, and the stations are weeded last. *)
Theorem X3_prepare_on_a_new_provider
    (engine : Squirrel) (stations : Stations) (w : world) :
  _squirrel (self w) = None ->
  exists w1,
    prepare engine stations w = (inr tt, w1)
    /\ _stations (self w1) = Some stations
    /\ _squirrel (self w1) = Some engine
    /\ io w1
       = io w
         ++ [EvSquirrelOpen (expanduser (environment (self w)))]
         ++ map (fun path => EvGlob (expanduser path))
              (filter has_double_star (waveform_dirs (self w)))
         ++ [EvSquirrelAdd (flat_map expand_path (waveform_dirs (self w)))]
         ++ map (fun path => EvSquirrelAdd [path]) (station_xmls stations)
         ++ [EvWeed].
Proof.
  intros Hsq. rewrite prepare_first by exact Hsq.
  eexists. split; [reflexivity|]. cbn [self io].
  split; [reflexivity|]. split; [reflexivity|].
  unfold init_log. cbn [_stations set_stations environment waveform_dirs].
  rewrite <- !app_assoc. reflexivity.
Qed.

(** X4. When the engine is already bound, [prepare] only rebinds the
    stations and weeds them: the engine is not opened again and the
    station XMLs of the new stations are not added to it. *)
Theorem X4_prepare_with_engine_bound
    (engine sq : Squirrel) (stations : Stations) (w : world) :
  _squirrel (self w) = Some sq ->
  prepare engine stations w
  = (inr tt, {| self := set_stations (self w) stations;
                io := io w ++ [EvWeed] |}).
Proof. apply prepare_again. Qed.

(** X5. After [prepare], the prologue of [iter_batches] raises nothing
    and makes two outside calls and no other: it asks the engine for its
    time span and for the batch source. The source is asked for the resolved span shrunk by the
    padding at both ends, with the window increment and padding in
    seconds, complete windows only, and one code per station in the
    stations' order, each with the provider's channel selector; the
    prefetcher gets the configured queue size. *)
Theorem X5_stream_request_after_prepare
    (engine : Squirrel) (stations : Stations) (w : world)
    (wi wp : timedelta) (st en : option datetime) (ml : option timedelta) :
  exists w1 w2 sm req,
    prepare engine stations w = (inr tt, w1)
    /\ iter_batches_open engine wi wp st en ml w1 = (inr sm, w2)
    /\ io w2 = io w1 ++ [EvGetTimeSpan ["waveform"%string]; EvChopper req]
    /\ tmin req = to_timestamp (s_start_time sm + wp)
    /\ tmax req = to_timestamp (s_end_time sm - wp)
    /\ tinc req = total_seconds wi
    /\ tpad req = total_seconds wp
    /\ want_incomplete req = false
    /\ codes req
       = map (fun nsl : NSL => let '(n, s, l) := nsl in
                               (n, s, l, channel_selector (self w)))
             (get_all_nsl stations)
    /\ s_iterator sm
       = chopper_waveforms_async (the_squirrel engine (self w)) req
    /\ s_queue_size sm = async_prefetch_batches (self w)
    /\ s_min_length sm = ml.
Proof.
  assert (Hp : exists w1,
             prepare engine stations w = (inr tt, w1)
             /\ _stations (self w1) = Some stations
             /\ _squirrel (self w1) = Some (the_squirrel engine (self w))
             /\ channel_selector (self w1) = channel_selector (self w)
             /\ async_prefetch_batches (self w1)
                = async_prefetch_batches (self w)).
  { unfold the_squirrel. destruct (_squirrel (self w)) as [sq|] eqn:Hsq.
    - rewrite (prepare_again engine sq) by exact Hsq.
      eexists. split; [reflexivity|]. cbn. now rewrite Hsq.
    - rewrite prepare_first by exact Hsq.
      eexists. split; [reflexivity|]. cbn. repeat split. }
  destruct Hp as (w1 & Hprep & Hst & Hsq & Hc & Hq).
  destruct (iter_batches_open_prepared engine _ stations w1 wi wp st en ml
              Hst Hsq)
    as (sm & req & Hopen & H1 & H2 & H3 & H4 & H5 & H6 & H7 & H8 & H9).
  rewrite Hc in H6. rewrite Hq in H8.
  eexists w1, _, sm, req.
  split; [exact Hprep|]. split; [exact Hopen|]. cbn [self io].
  repeat split; assumption.
Qed.

(** X6. The model validator accepts a provider exactly when a bound is
    missing or the start time is not after the end time (equal bounds
    pass), and it returns the provider as it is. *)
Theorem X6_validator_accepts (p : PyrockoSquirrel) :
  match start_time p, end_time p with
  | Some t0, Some t1 =>
    (t0 <= t1 -> _validate_model p = inr p)
    /\ (t1 < t0 -> exists msg, _validate_model p = inl (ValueError msg))
  | _, _ => _validate_model p = inr p
  end.
Proof.
  unfold _validate_model.
  destruct (start_time p) as [t0|]; [|reflexivity].
  destruct (end_time p) as [t1|]; [|reflexivity].
  split; intros H; destruct (Z.gtb_spec t0 t1); try lia; eauto.
Qed.

(** ** Further properties: the streaming loop *)

(** The counters after one iteration. *)
Lemma process_batch_counters (load : timedelta) (ml : option timedelta)
    (start t : datetime) (st : SquirrelStats) (pb : Batch) :
  empty_batches (fst (process_batch load ml start t st pb))
  = empty_batches st
    + (if load =? 0 then 0
       else if WaveformBatch.is_empty (make_batch pb) then 1 else 0)
  /\ short_batches (fst (process_batch load ml start t st pb))
     = short_batches st
       + (if load =? 0 then 0
          else if dropped_short ml (make_batch pb) then 1 else 0).
Proof.
  destruct (Z.eqb_spec load 0) as [->|Hl].
  - cbn. lia.
  - rewrite (process_batch_classifies _ _ _ _ _ _ Hl). cbv zeta.
    unfold dropped_short.
    destruct (WaveformBatch.is_empty (make_batch pb)); cbn; [lia|].
    destruct (too_short ml (make_batch pb)); cbn; lia.
Qed.

Lemma count_empty_snoc (bs : list Batch) (b : Batch) :
  count_empty (bs ++ [b])
  = count_empty bs
    + (if WaveformBatch.is_empty (make_batch b) then 1 else 0).
Proof.
  unfold count_empty. rewrite map_app, filter_app, length_app. cbn.
  destruct (WaveformBatch.is_empty (make_batch b)); cbn; lia.
Qed.

Lemma count_short_snoc (ml : option timedelta) (bs : list Batch) (b : Batch) :
  count_short ml (bs ++ [b])
  = count_short ml bs + (if dropped_short ml (make_batch b) then 1 else 0).
Proof.
  unfold count_short. rewrite map_app, filter_app, length_app. cbn.
  destruct (dropped_short ml (make_batch b)); cbn; lia.
Qed.

(** Every batch is yielded, dropped as empty or dropped as short, and
    only one of the three. *)
Lemma classification_partition (ml : option timedelta) (bs : list Batch) :
  Z.of_nat (List.length (handed_out ml bs))
  + count_empty bs + count_short ml bs
  = Z.of_nat (List.length bs).
Proof.
  unfold handed_out, count_empty, count_short.
  induction bs as [|b bs IH]; [reflexivity|].
  cbn [map filter List.length]. unfold passes, dropped_short in *.
  destruct (WaveformBatch.is_empty (make_batch b));
    destruct (too_short ml (make_batch b)); cbn [negb andb List.length]; lia.
Qed.

Lemma classification_inv_step (ml0 : option timedelta) (st0 : SquirrelStats)
    (a : action) (s s' : state) :
  classification_inv ml0 st0 s -> step a s = Some s' ->
  classification_inv ml0 st0 s'.
Proof.
  intros Hinv Hstep. step_cases Hstep.
  - exact Hinv.
  - destruct tk as [|start|item start| |e]; try discriminate.
    + injection Hstep as <-. exact Hinv.
    + destruct it as [[|b rest] [|]]; injection Hstep as <-; exact Hinv.
    + destruct (full _); [discriminate|]. injection Hstep as <-. exact Hinv.
  - destruct Hinv as (Hm & bs & Hc & Hy & He & Hs).
    unfold classified in Hc. cbn in Hm, Hc, Hy, He, Hs.
    destruct g as [start| | |e|]; try discriminate.
    + destruct q as [|item rest]; [discriminate|].
      destruct item as [pb|].
      * pose proof (process_batch_outcome lt ml start t st pb) as Ho.
        pose proof (process_batch_counters lt ml start t st pb) as (Pe & Ps).
        destruct (process_batch lt ml start t st pb) as [st' out].
        cbn [fst snd] in Ho, Pe, Ps. subst out ml0.
        destruct (lt =? 0).
        -- cbv iota in Hstep. injection Hstep as <-.
           split; [reflexivity|]. exists bs. unfold classified. cbn.
           split; [exists pb; now rewrite Hc, map_app|].
           split; [now rewrite Hy, app_nil_r|]. lia.
        -- unfold dropped_short in Ps. unfold passes in Hstep.
           destruct (WaveformBatch.is_empty (make_batch pb)) eqn:Hemp;
             [|destruct (too_short ml (make_batch pb)) eqn:Hsh];
             cbn [negb andb] in Hstep, Ps; cbv iota in Hstep;
             injection Hstep as <-; (split; [reflexivity|]);
             exists (bs ++ [pb]); unfold classified; cbn;
             rewrite handed_out_snoc, count_empty_snoc, count_short_snoc;
             unfold passes, dropped_short; rewrite Hemp, ?Hsh;
             cbn [negb andb];
             (split; [now rewrite Hc, map_app|]);
             (split; [now rewrite Hy|]); lia.
      * injection Hstep as <-. split; [exact Hm|]. exists bs.
        unfold classified. cbn.
        split; [now rewrite Hc|]. split; [now rewrite Hy, app_nil_r|].
        split; assumption.
    + injection Hstep as <-. split; [exact Hm|]. now exists bs.
  - destruct Hinv as (Hm & bs & Hc & Hrest).
    unfold classified in Hc. cbn in Hm, Hc.
    destruct g; try discriminate; injection Hstep as <-;
      (split; [exact Hm|]); exists bs; (split; [exact Hc|exact Hrest]).
Qed.

Lemma reachable_classification_inv (t0 : datetime) (st0 : SquirrelStats)
    (sm : stream) (sched : list action) (s : state) :
  run sched (init_state t0 st0 sm) = Some s ->
  classification_inv (s_min_length sm) st0 s.
Proof.
  apply (run_preserves (classification_inv (s_min_length sm) st0)).
  - intros a s1 s2. apply classification_inv_step.
  - split; [reflexivity|]. exists []. unfold classified. cbn.
    repeat split; lia.
Qed.

Lemma queue_bound_step (m : Z) (a : action) (s s' : state) :
  maxsize (prefetcher s) = m
  /\ (0 < m -> Z.of_nat (List.length (queue (prefetcher s))) <= m) ->
  step a s = Some s' ->
  maxsize (prefetcher s') = m
  /\ (0 < m -> Z.of_nat (List.length (queue (prefetcher s'))) <= m).
Proof.
  intros Hinv Hstep. step_cases Hstep; cbn in Hinv.
  - exact Hinv.
  - destruct tk as [|start|item start| |e]; try discriminate.
    + injection Hstep as <-. exact Hinv.
    + destruct it as [[|b rest] [|]]; injection Hstep as <-; exact Hinv.
    + unfold full in Hstep. cbn [maxsize queue] in Hstep.
      destruct Hinv as [Hm Hq].
      destruct (Z.leb_spec mx 0) as [Hle|Hgt].
      * injection Hstep as <-. cbn. split; [exact Hm|]. lia.
      * destruct (Z.leb_spec mx (Z.of_nat (List.length q))) as [|Hlt];
          [discriminate|].
        injection Hstep as <-. cbn. split; [exact Hm|].
        intros _. rewrite length_app. cbn. lia.
  - destruct g as [start| | |e|]; try discriminate.
    + destruct q as [|item rest]; [discriminate|].
      destruct Hinv as [Hm Hq]. cbn [List.length] in Hq.
      destruct item as [pb|].
      * destruct (process_batch _ _ _ _ _ _) as [st' [b| |e]];
          injection Hstep as <-; cbn; (split; [exact Hm|]); lia.
      * injection Hstep as <-; cbn; (split; [exact Hm|]); lia.
    + injection Hstep as <-. exact Hinv.
  - destruct g; try discriminate; injection Hstep as <-; exact Hinv.
Qed.

Lemma reachable_queue_bound (t0 : datetime) (st0 : SquirrelStats)
    (sm : stream) (sched : list action) (s : state) :
  run sched (init_state t0 st0 sm) = Some s ->
  maxsize (prefetcher s) = s_queue_size sm
  /\ (0 < s_queue_size sm ->
      Z.of_nat (List.length (queue (prefetcher s))) <= s_queue_size sm).
Proof.
  apply (run_preserves
           (fun s => maxsize (prefetcher s) = s_queue_size sm
                     /\ (0 < s_queue_size sm ->
                         Z.of_nat (List.length (queue (prefetcher s)))
                         <= s_queue_size sm))).
  - intros a s1 s2. apply queue_bound_step.
  - cbn. split; [reflexivity|]. lia.
Qed.

(** X7. Backpressure. The queue keeps the size it was built with, and a
    queue of positive size never holds more items than that: what
    [SquirrelStats] reports as [queue_size] stays between zero and
    [queue_size_max], which is the configured [async_prefetch_batches]. *)
Theorem X7_queue_never_over_capacity
    (t0 : datetime) (st0 : SquirrelStats) (sm : stream)
    (sched : list action) (s : state) :
  run sched (init_state t0 st0 sm) = Some s ->
  queue_size_max (Some (prefetcher s)) = s_queue_size sm
  /\ 0 <= queue_size (Some (prefetcher s))
  /\ (0 < s_queue_size sm ->
      queue_size (Some (prefetcher s)) <= queue_size_max (Some (prefetcher s))).
Proof.
  intros Hrun. destruct (reachable_queue_bound _ _ _ _ _ Hrun) as [Hm Hq].
  unfold queue_size, queue_size_max. rewrite Hm.
  split; [reflexivity|]. split; [lia|exact Hq].
Qed.

(** X8. First in, first out. What the generator got from the queue,
    followed by what waits in the queue, is a beginning of the stream of
    the source: its batches in order, then the terminator. Nothing is
    lost, repeated or reordered between source and consumer. *)
Theorem X8_queue_keeps_source_order
    (t0 : datetime) (st0 : SquirrelStats) (sm : stream)
    (sched : list action) (s : state) :
  run sched (init_state t0 st0 sm) = Some s ->
  exists rest,
    dequeued (hist s) ++ queue (prefetcher s) ++ rest
    = full_stream (s_iterator sm).
Proof.
  intros Hrun.
  destruct (reachable_prefetcher_inv _ _ _ _ _ Hrun) as (Hs & _ & Hq).
  exists (to_come (prefetcher s)). rewrite app_assoc, <- Hq. exact Hs.
Qed.

(** X9. Classification. At any moment, for the batches [bs] classified so
    far (in source order), the caller was handed exactly those of [bs]
    that are neither empty nor too short, [empty_batches] has grown by
    the number of empty ones and [short_batches] by the number of
    non-empty ones that are too short: every classified batch is yielded
    or counted once, never both. *)
Theorem X9_yielded_and_counted
    (t0 : datetime) (st0 : SquirrelStats) (sm : stream)
    (sched : list action) (s : state) :
  run sched (init_state t0 st0 sm) = Some s ->
  exists bs rest,
    src_batches (s_iterator sm) = bs ++ rest
    /\ classified s bs
    /\ yielded (hist s) = handed_out (s_min_length sm) bs
    /\ empty_batches (stats s) = empty_batches st0 + count_empty bs
    /\ short_batches (stats s)
       = short_batches st0 + count_short (s_min_length sm) bs
    /\ Z.of_nat (List.length (yielded (hist s)))
       + (empty_batches (stats s) - empty_batches st0)
       + (short_batches (stats s) - short_batches st0)
       = Z.of_nat (List.length bs).
Proof.
  intros Hrun.
  destruct (reachable_classification_inv _ _ _ _ _ Hrun)
    as (_ & bs & Hc & Hy & He & Hs).
  destruct (reachable_prefetcher_inv _ _ _ _ _ Hrun) as (Hf & _ & Hq).
  rewrite Hq in Hf.
  assert (Hpre : exists rest, src_batches (s_iterator sm) = bs ++ rest).
  { unfold classified in Hc. destruct (gen s) as [start| | |e|].
    - rewrite Hc, <- app_assoc in Hf. exact (got_in_source_order _ _ _ Hf).
    - rewrite Hc, <- app_assoc in Hf. exact (got_in_source_order _ _ _ Hf).
    - rewrite Hc, <- !app_assoc in Hf. exact (got_in_source_order _ _ _ Hf).
    - destruct Hc as (b & Hc). rewrite Hc, map_app, <- !app_assoc in Hf.
      exact (got_in_source_order _ _ _ Hf).
    - rewrite Hc, <- app_assoc in Hf. exact (got_in_source_order _ _ _ Hf). }
  destruct Hpre as (rest & Hpre). exists bs, rest.
  split; [exact Hpre|]. split; [exact Hc|]. split; [exact Hy|].
  split; [exact He|]. split; [exact Hs|].
  pose proof (classification_partition (s_min_length sm) bs) as Hp.
  rewrite Hy, He, Hs. lia.
Qed.

Lemma terminated_streams_agree (A : Type) (a b : list A)
    (q : list (option A)) :
  map Some a ++ [None] = (map Some b ++ [None]) ++ q -> a = b /\ q = [].
Proof.
  revert b. induction a as [|x a IH]; intros [|y b] H; cbn in H.
  - injection H as <-. now split.
  - discriminate.
  - discriminate.
  - injection H as -> H. destruct (IH b H) as [-> ->]. now split.
Qed.

(** X10. A stream that ends normally has delivered everything. When the
    generator leaves its loop, the source was exhausted, the task has
    returned, the queue is empty, every batch of the source was
    classified: the caller got all batches that are neither empty nor too
    short, in source order, and the counters have grown by the numbers
    of empty and of short batches of the whole source. *)
Theorem X10_normal_end_is_complete
    (t0 : datetime) (st0 : SquirrelStats) (sm : stream)
    (sched : list action) (s : state) :
  run sched (init_state t0 st0 sm) = Some s ->
  gen s = CDone ->
  src_end (s_iterator sm) = Exhausted
  /\ _task (prefetcher s) = PDone
  /\ queue (prefetcher s) = []
  /\ yielded (hist s)
     = handed_out (s_min_length sm) (src_batches (s_iterator sm))
  /\ empty_batches (stats s)
     = empty_batches st0 + count_empty (src_batches (s_iterator sm))
  /\ short_batches (stats s)
     = short_batches st0
       + count_short (s_min_length sm) (src_batches (s_iterator sm)).
Proof.
  intros Hrun Hd.
  destruct (reachable_classification_inv _ _ _ _ _ Hrun)
    as (_ & bs & Hc & Hy & He & Hs).
  pose proof (reachable_prefetcher_inv _ _ _ _ _ Hrun) as Hp.
  unfold classified in Hc. rewrite Hd in Hc.
  assert (Hin : In None (enqueued (hist s))).
  { destruct Hp as (_ & _ & Hq). rewrite Hq, Hc.
    apply in_or_app. left. apply in_or_app. right. now left. }
  destruct (terminator_enqueued_done _ _ Hp Hin) as (Hx & Henq & Ht).
  destruct Hp as (_ & _ & Hq). rewrite Henq, Hc in Hq.
  apply terminated_streams_agree in Hq as [Hall Hqe].
  rewrite Hall. repeat split; assumption.
Qed.

(** X11. When the source ends normally the consumer is never left
    waiting: once neither coroutine can run, the generator has ended,
    normally unless it raised or was cancelled. The coroutines take at
    most [4 n + 5] steps for [n] batches, so the stream is finite. *)
Theorem X11_exhausted_source_ends_the_stream
    (t0 : datetime) (st0 : SquirrelStats) (sm : stream)
    (sched : list action) (s : state) :
  src_end (s_iterator sm) = Exhausted ->
  run sched (init_state t0 st0 sm) = Some s ->
  (coroutine_steps sched
   <= 4 * List.length (src_batches (s_iterator sm)) + 5)%nat
  /\ (quiescent s = true ->
      gen s = CDone \/ (exists e, gen s = CFailed e) \/ gen s = CCancelled).
Proof.
  intros Hx Hrun. split.
  - pose proof (steps_bounded _ _ _ Hrun) as Hb.
    rewrite work_left_init in Hb. lia.
  - intros Hq. apply quiescent_blocked_starved in Hq as [Hb Hst].
    destruct (gen s) as [start| | |e|] eqn:Hg; cbn in Hst;
      try discriminate; eauto.
    exfalso.
    destruct (queue (prefetcher s)) as [|x q] eqn:Hqueue; [|discriminate].
    pose proof (reachable_prefetcher_inv _ _ _ _ _ Hrun) as Hp.
    pose proof (reachable_generator_inv _ _ _ _ _ Hrun) as (_ & Hgi).
    rewrite Hg in Hgi. destruct Hgi as (bs & Hdq & _).
    apply worker_cannot_run in Hb.
    destruct (task_over_enqueued _ _ Hp) as (Hdone & Hfail).
    destruct (worker_blocked s Hb (not_full_when_empty _ Hqueue))
      as [Hd|(e & He)].
    + destruct (Hdone Hd) as (_ & Henq).
      destruct Hp as (_ & _ & Hpq).
      rewrite Hqueue, app_nil_r, Hdq in Hpq. rewrite Hpq in Henq.
      assert (Hin : In (@None Batch) (map Some bs)).
      { rewrite Henq. apply in_or_app. right. now left. }
      apply in_map_iff in Hin as (b & Hb' & _). discriminate.
    + destruct (Hfail e He) as (Hr & _). congruence.
Qed.

Lemma fetched_count_step (n : Z) (a : action) (s s' : state) :
  _fetched_batches (prefetcher s)
  + Z.of_nat (List.length (src_batches (iterator (prefetcher s)))) = n ->
  step a s = Some s' ->
  _fetched_batches (prefetcher s')
  + Z.of_nat (List.length (src_batches (iterator (prefetcher s')))) = n.
Proof.
  intros Hinv Hstep. step_cases Hstep; cbn in Hinv.
  - exact Hinv.
  - destruct tk as [|start|item start| |e]; try discriminate.
    + injection Hstep as <-. exact Hinv.
    + destruct it as [[|b rest] [|]]; injection Hstep as <-; cbn in *; lia.
    + destruct (full _); [discriminate|]. injection Hstep as <-. exact Hinv.
  - destruct g as [start| | |e|]; try discriminate.
    + destruct q as [|item rest]; [discriminate|].
      destruct item as [pb|].
      * destruct (process_batch _ _ _ _ _ _) as [st' [b| |e]];
          injection Hstep as <-; exact Hinv.
      * injection Hstep as <-; exact Hinv.
    + injection Hstep as <-. exact Hinv.
  - destruct g; try discriminate; injection Hstep as <-; exact Hinv.
Qed.

Lemma iterator_drained_step (a : action) (s s' : state) :
  match _task (prefetcher s) with
  | PPut None _ | PDone | PFailed _ =>
    src_batches (iterator (prefetcher s)) = []
  | _ => True
  end ->
  step a s = Some s' ->
  match _task (prefetcher s') with
  | PPut None _ | PDone | PFailed _ =>
    src_batches (iterator (prefetcher s')) = []
  | _ => True
  end.
Proof.
  intros Hinv Hstep. step_cases Hstep; cbn in Hinv.
  - exact Hinv.
  - destruct tk as [|start|item start| |e]; try discriminate.
    + injection Hstep as <-. exact I.
    + destruct it as [[|b rest] [|]]; injection Hstep as <-; cbn; auto.
    + destruct (full _); [discriminate|]. injection Hstep as <-. cbn.
      destruct item; [exact I|exact Hinv].
  - destruct g as [start| | |e|]; try discriminate.
    + destruct q as [|item rest]; [discriminate|].
      destruct item as [pb|].
      * destruct (process_batch _ _ _ _ _ _) as [st' [b| |e]];
          injection Hstep as <-; exact Hinv.
      * injection Hstep as <-; exact Hinv.
    + injection Hstep as <-. exact Hinv.
  - destruct g; try discriminate; injection Hstep as <-; exact Hinv.
Qed.

(** X13. [_fetched_batches] counts what was taken from the iterator: it
    is the number of batches of the source less the number the iterator
    still holds; the terminator is not counted, so a task that has
    returned has counted every batch of the source. *)
Theorem X13_fetched_batches_counts_fetches
    (t0 : datetime) (st0 : SquirrelStats) (sm : stream)
    (sched : list action) (s : state) :
  run sched (init_state t0 st0 sm) = Some s ->
  _fetched_batches (prefetcher s)
  = Z.of_nat (List.length (src_batches (s_iterator sm)))
    - Z.of_nat (List.length (src_batches (iterator (prefetcher s))))
  /\ (_task (prefetcher s) = PDone ->
      _fetched_batches (prefetcher s)
      = Z.of_nat (List.length (src_batches (s_iterator sm)))).
Proof.
  intros Hrun.
  assert (H : _fetched_batches (prefetcher s)
              + Z.of_nat (List.length (src_batches (iterator (prefetcher s))))
              = Z.of_nat (List.length (src_batches (s_iterator sm)))).
  { revert Hrun.
    apply (run_preserves
             (fun s => _fetched_batches (prefetcher s)
                       + Z.of_nat (List.length
                                     (src_batches (iterator (prefetcher s))))
                       = Z.of_nat (List.length (src_batches (s_iterator sm))))).
    - intros a s1 s2. apply fetched_count_step.
    - reflexivity. }
  split; [lia|].
  intros Hd.
  assert (Hdr : match _task (prefetcher s) with
                | PPut None _ | PDone | PFailed _ =>
                  src_batches (iterator (prefetcher s)) = []
                | _ => True
                end).
  { revert Hrun.
    apply (run_preserves
             (fun s => match _task (prefetcher s) with
                       | PPut None _ | PDone | PFailed _ =>
                         src_batches (iterator (prefetcher s)) = []
                       | _ => True
                       end)).
    - intros a s1 s2. apply iterator_drained_step.
    - exact I. }
  rewrite Hd in Hdr. rewrite Hdr in H. cbn in H. lia.
Qed.



(** X16. A minimum length of zero is no minimum length: [min_length and
    ...] takes [timedelta(0)] for false, so the loop behaves as if none
    had been supplied, for every batch. *)
Theorem X16_zero_min_length_is_none
    (load : timedelta) (start t : datetime) (st : SquirrelStats) (pb : Batch) :
  process_batch load (Some 0) start t st pb
  = process_batch load None start t st pb.
Proof.
  unfold process_batch.
  destruct (truediv _ _); [reflexivity|].
  destruct (WaveformBatch.is_empty (make_batch pb)); reflexivity.
Qed.

End Properties.

(** * The claims on concrete runs *)

Import Examples.



(** C2, evaluated. [process_batch] with a load time of zero raises
    ZeroDivisionError for every batch, and a dequeued batch can meet a
    load time of zero: here the source delivers within the clock's
    microsecond in which the worker started, and the generator ends on
    the exception instead of recording a rate of zero. *)
Theorem C2_zero_load_time_raises :
  (forall (E : Env) ml start t st (pb : Batch),
      process_batch 0 ml start t st pb
      = (set_time_per_batch st (t - start), Raise ZeroDivisionError))
  /\ exists s : @state env,
       run instant_fetch (init_state 0 stats0 (stream_of exhausting 1 None))
       = Some s
       /\ dequeued (hist s) = [Some batch0]
       /\ load_time (prefetcher s) = 0
       /\ gen s = CFailed ZeroDivisionError.
Proof.
  split; [reflexivity|].
  eexists. split; [vm_compute; reflexivity|]. repeat split.
Qed.

(** C3, the claim as stated fails. With a queue of one and a consumer
    that takes its first batch after 100 microseconds, the third fetch
    completes the instant the task asks for it, and yet [load_time] is
    100 microseconds: all of it was spent suspended in [queue.put], none
    awaiting the source. *)
Lemma C3_load_time_includes_the_wait_in_put :
  exists s : @state env,
    run slow_consumer (init_state 0 stats0 (stream_of exhausting 1 None))
    = Some s
    /\ _fetched_batches (prefetcher s) = 3
    /\ load_time (prefetcher s) = 100
    /\ load_src (hist s) = 0
    /\ load_put (hist s) = 100.
Proof. eexists. split; [vm_compute; reflexivity|]. repeat split. Qed.

Lemma C3_witness :
  exists s : @state env,
    run slow_consumer (init_state 0 stats0 (stream_of exhausting 1 None))
    = Some s
    /\ exists t1 t0 older,
         stamps (hist s) = t1 :: t0 :: older
         /\ load_time (prefetcher s) = t1 - t0
         /\ load_time (prefetcher s) = load_src (hist s) + load_put (hist s)
         /\ 0 <= load_src (hist s) /\ 0 <= load_put (hist s).
Proof.
  destruct (run slow_consumer
              (init_state 0 stats0 (stream_of exhausting 1 None)))
    as [s|] eqn:Hrun; [|vm_compute in Hrun; discriminate Hrun].
  exists s. split; [reflexivity|].
  apply (C3_load_time_spans_fetch_to_fetch (E:=env)
           0 stats0 (stream_of exhausting 1 None) slow_consumer s Hrun).
  vm_compute in Hrun. injection Hrun as <-. reflexivity.
Defined.

(** C4, the claim as stated fails. Both bounds are given by the caller,
    and the engine's extent is queried all the same. *)
Lemma C4_engine_queried_with_explicit_bounds :
  exists sm req,
    iter_batches_open (E:=env) (engine exhausting) one_minute one_second
      (Some 0) (Some 180000000) None (world0 exhausting)
    = (inr sm, {| self := provider exhausting;
                  io := [EvGetTimeSpan ["waveform"%string]; EvChopper req] |}).
Proof. eexists. eexists. vm_compute. reflexivity. Qed.

Lemma C4_witness :
  exists sm p' evs req,
    iter_batches_open (E:=env) (engine exhausting) one_minute one_second
      None None None (world0 exhausting)
    = (inr sm, {| self := p';
                  io := io (world0 exhausting) ++ evs
                        ++ [EvGetTimeSpan ["waveform"%string];
                            EvChopper req] |})
    /\ s_start_time sm = 0
    /\ s_end_time sm = 180000000.
Proof.
  destruct (C4_span_precedence_and_unconditional_query (E:=env)
              (engine exhausting) one_minute one_second None None None
              (world0 exhausting) stations eq_refl)
    as (sm & p' & evs & req & Heq & _ & Hs & He).
  exists sm, p', evs, req. split; [exact Heq|]. split; [exact Hs|exact He].
Defined.



(** C6, the claim as stated fails. A batch of ten seconds, shorter than
    the minimum of one minute, that is empty after cleaning: it is
    dropped, but counted as empty; [short_batches] does not move. *)
Lemma C6_empty_short_batch_not_counted_short :
  WaveformBatch.duration (make_batch (E:=env) empty_short_batch) = 10000000
  /\ snd (process_batch (E:=env) one_second (Some one_minute) 0 5 stats0
            empty_short_batch) = Continue
  /\ short_batches (fst (process_batch (E:=env) one_second (Some one_minute)
                           0 5 stats0 empty_short_batch)) = 0
  /\ empty_batches (fst (process_batch (E:=env) one_second (Some one_minute)
                           0 5 stats0 empty_short_batch)) = 1.
Proof. repeat split. Qed.

Lemma C6_witness :
  (snd (process_batch (E:=env) one_second (Some one_minute) 0 5 stats0
          short_batch) = Continue
   /\ short_batches (fst (process_batch (E:=env) one_second (Some one_minute)
                            0 5 stats0 short_batch)) = 1)
  /\ snd (process_batch (E:=env) one_second (Some one_minute) 0 5 stats0
            batch0) = Yield (make_batch batch0).
Proof.
  split.
  - destruct (C6_short_batches_dropped_and_counted (E:=env)
                one_second one_minute 0 5 stats0 short_batch)
      as (H & _); [discriminate|reflexivity|].
    destruct H as (H1 & H2 & _); [discriminate|reflexivity|].
    split; [exact H1|exact H2].
  - destruct (C6_short_batches_dropped_and_counted (E:=env)
                one_second one_minute 0 5 stats0 batch0)
      as (_ & H); [discriminate|reflexivity|].
    destruct H as (H1 & _); [reflexivity|]. exact H1.
Defined.

(** C7, evaluated. A window without traces is dequeued when the load time
    is zero (the source delivered it within the clock's microsecond in
    which the worker started): the rate computation raises before the
    emptiness check, so the batch is not counted in [empty_batches]. *)
Theorem C7_empty_batch_uncounted_at_zero_load_time :
  exists s : @state env,
    run instant_fetch (init_state 0 stats0 (stream_of empty_window 1 None))
    = Some s
    /\ dequeued (hist s) = [Some empty_short_batch]
    /\ WaveformBatch.is_empty (make_batch empty_short_batch) = true
    /\ load_time (prefetcher s) = 0
    /\ gen s = CFailed ZeroDivisionError
    /\ empty_batches (stats s) = 0.
Proof. eexists. split; [vm_compute; reflexivity|]. repeat split. Qed.

(** C9, the claim as stated fails. The caller asks for a span that starts
    after it ends; nothing is raised when the span is resolved, and the
    stream is set up with these bounds. *)
Lemma C9_reversed_span_accepted :
  exists sm w',
    iter_batches_open (E:=env) (engine exhausting) one_minute one_second
      (Some 10) (Some 5) None (world0 exhausting)
    = (inr sm, w')
    /\ s_start_time sm = 10
    /\ s_end_time sm = 5.
Proof. eexists. eexists. split; [vm_compute; reflexivity|]. split; reflexivity. Qed.

Lemma C9_witness :
  _validate_model (E:=env) reversed
  = inl (ValueError "start_time must be before end_time").
Proof.
  destruct (C9_bounds_checked_at_validation_only (E:=env) reversed 10 5
              eq_refl eq_refl) as (H & _).
  apply H. reflexivity.
Defined.



(** * The further properties on concrete inputs *)

Lemma X1_witness :
  exists w1,
    get_squirrel (E:=env) (engine exhausting) (@mkWorld env fresh [])
    = (inr (engine exhausting), w1)
    /\ io w1
       = [EvSquirrelOpen "/home/user/env";
          EvGlob "/archive/**/*.mseed";
          EvSquirrelAdd ["/home/user/data"%string]]
    /\ _squirrel (self w1) = Some (engine exhausting)
    /\ get_squirrel (E:=env) (engine failing) w1
       = (inr (engine exhausting), w1).
Proof.
  destruct (X1_engine_set_up_once (E:=env) (engine exhausting)
              (@mkWorld env fresh []) eq_refl)
    as (w1 & H1 & H2 & H3 & H4).
  exists w1. split; [exact H1|]. split; [exact H2|].
  split; [exact H3|]. apply H4.
Defined.

Lemma X2_witness :
  collect_paths (E:=env) ["~/data"%string; "/more"%string] []
    (world0 exhausting)
  = (inr ["/home/user/data"%string; "/more"%string], world0 exhausting).
Proof.
  apply (X2_plain_directories_only_expand_home (E:=env)
           ["~/data"%string; "/more"%string]).
  reflexivity.
Defined.

Lemma X3_witness :
  exists w1,
    prepare (E:=env) (engine exhausting) with_xmls (@mkWorld env fresh [])
    = (inr tt, w1)
    /\ _stations (self w1) = Some with_xmls
    /\ _squirrel (self w1) = Some (engine exhausting).
Proof.
  destruct (X3_prepare_on_a_new_provider (E:=env) (engine exhausting)
              with_xmls (@mkWorld env fresh []) eq_refl)
    as (w1 & H1 & H2 & H3 & _).
  exists w1. split; [exact H1|]. split; [exact H2|exact H3].
Defined.

Lemma X4_witness :
  prepare (E:=env) (engine failing) with_xmls (world0 exhausting)
  = (inr tt, {| self := set_stations (provider exhausting) with_xmls;
                io := [EvWeed] |}).
Proof.
  apply (X4_prepare_with_engine_bound (E:=env) (engine failing)
           (engine exhausting) with_xmls (world0 exhausting)).
  reflexivity.
Defined.

Lemma X7_witness :
  exists s : @state env,
    run slow_consumer (init_state 0 stats0 (stream_of exhausting 1 None))
    = Some s
    /\ queue_size (Some (prefetcher s)) <= queue_size_max (Some (prefetcher s)).
Proof.
  destruct (run slow_consumer
              (init_state 0 stats0 (stream_of exhausting 1 None)))
    as [s|] eqn:Hrun; [|vm_compute in Hrun; discriminate Hrun].
  exists s. split; [reflexivity|].
  destruct (X7_queue_never_over_capacity (E:=env)
              0 stats0 (stream_of exhausting 1 None) slow_consumer s Hrun)
    as (_ & _ & H).
  apply H. reflexivity.
Defined.

Lemma X8_witness :
  exists (s : @state env) rest,
    run slow_consumer (init_state 0 stats0 (stream_of exhausting 1 None))
    = Some s
    /\ dequeued (hist s) ++ queue (prefetcher s) ++ rest
       = [Some batch0; Some batch1; Some batch2; None].
Proof.
  destruct (run slow_consumer
              (init_state 0 stats0 (stream_of exhausting 1 None)))
    as [s|] eqn:Hrun; [|vm_compute in Hrun; discriminate Hrun].
  destruct (X8_queue_keeps_source_order (E:=env)
              0 stats0 (stream_of exhausting 1 None) slow_consumer s Hrun)
    as (rest & H).
  exists s, rest. split; [reflexivity|exact H].
Defined.

Lemma X9_witness :
  exists (s : @state env) (bs : list (@Batch env)),
    run classify_mixed
        (init_state 0 stats0 (stream_of mixed 1 (Some one_minute))) = Some s
    /\ yielded (hist s) = handed_out (E:=env) (Some one_minute) bs
    /\ Z.of_nat (List.length (yielded (hist s)))
       + (empty_batches (stats s) - 0) + (short_batches (stats s) - 0)
       = Z.of_nat (List.length bs).
Proof.
  destruct (run classify_mixed
              (init_state 0 stats0 (stream_of mixed 1 (Some one_minute))))
    as [s|] eqn:Hrun; [|vm_compute in Hrun; discriminate Hrun].
  destruct (X9_yielded_and_counted (E:=env)
              0 stats0 (stream_of mixed 1 (Some one_minute))
              classify_mixed s Hrun)
    as (bs & rest & _ & _ & Hy & _ & _ & Hp).
  exists s, bs. split; [reflexivity|]. split; [exact Hy|exact Hp].
Defined.

(** The scenario of a source with an empty, a short and a good window:
    one batch is yielded, each counter is one, the stream ends normally. *)
Lemma X10_witness :
  exists s : @state env,
    run classify_mixed
        (init_state 0 stats0 (stream_of mixed 1 (Some one_minute))) = Some s
    /\ yielded (hist s) = [make_batch batch0]
    /\ empty_batches (stats s) = 1
    /\ short_batches (stats s) = 1.
Proof.
  destruct (run classify_mixed
              (init_state 0 stats0 (stream_of mixed 1 (Some one_minute))))
    as [s|] eqn:Hrun; [|vm_compute in Hrun; discriminate Hrun].
  assert (Hd : gen s = CDone)
    by (vm_compute in Hrun; injection Hrun as <-; reflexivity).
  destruct (X10_normal_end_is_complete (E:=env)
              0 stats0 (stream_of mixed 1 (Some one_minute))
              classify_mixed s Hrun Hd)
    as (_ & _ & _ & Hy & He & Hs).
  exists s. split; [reflexivity|]. split; [exact Hy|]. split; [exact He|exact Hs].
Defined.

Lemma X11_witness :
  exists s : @state env,
    run complete (init_state 0 stats0 (stream_of exhausting 1 None)) = Some s
    /\ (gen s = CDone \/ (exists e, gen s = CFailed e) \/ gen s = CCancelled).
Proof.
  destruct (run complete (init_state 0 stats0 (stream_of exhausting 1 None)))
    as [s|] eqn:Hrun; [|vm_compute in Hrun; discriminate Hrun].
  assert (Hq : quiescent s = true)
    by (vm_compute in Hrun; injection Hrun as <-; reflexivity).
  destruct (X11_exhausted_source_ends_the_stream (E:=env)
              0 stats0 (stream_of exhausting 1 None) complete s
              eq_refl Hrun)
    as (_ & H).
  exists s. split; [reflexivity|exact (H Hq)].
Defined.

Lemma X13_witness :
  exists s : @state env,
    run complete (init_state 0 stats0 (stream_of exhausting 1 None)) = Some s
    /\ _fetched_batches (prefetcher s) = 3.
Proof.
  destruct (run complete (init_state 0 stats0 (stream_of exhausting 1 None)))
    as [s|] eqn:Hrun; [|vm_compute in Hrun; discriminate Hrun].
  assert (Hd : _task (prefetcher s) = PDone)
    by (vm_compute in Hrun; injection Hrun as <-; reflexivity).
  destruct (X13_fetched_batches_counts_fetches (E:=env)
              0 stats0 (stream_of exhausting 1 None) complete s Hrun)
    as (_ & H).
  exists s. split; [reflexivity|exact (H Hd)].
Defined.

